(** * polycentral-backend: tournament entry, settlement, free claim, lifecycle

    A shallow embedding of the request handlers of [src/server.js] (the
    Postgres variant, lines 1-1083) that touch the tables [users],
    [tournaments] and [participants], and the properties of the
    specification that concern them.

    Modelling conventions.
    - A table with a primary key [id] is a finite map from the key to the
      row; [participants], which the handlers only append to and filter, is
      the list of its rows in insertion order.
    - An INTEGER column holds an integer ([Z]); the store keeps it within
      32 bits by refusing the statement that binds a parameter or computes a
      value out of that range.  A value a handler reads from an INTEGER
      column and hands back unchanged is bound without a check.  TIMESTAMP
      columns and [Date] values are milliseconds since the epoch ([Z]);
      TEXT columns are strings, and the store refuses a text parameter that
      holds the character NUL; a nullable column is an [option].
    - A handler is a function from the stored state and the request to the
      new stored state and the HTTP response.  Each handler runs from its
      first query to its response without another handler in between.
    - [BEGIN] ... [COMMIT] / [ROLLBACK] is an exception monad over the state:
      a [throw], or a statement the store refuses, discards every write made
      since [BEGIN]. *)

From Stdlib Require Import ZArith Lia Ascii String DecimalString.
From stdpp Require Import base option list gmap fin_maps strings.

Open Scope string_scope.
Open Scope list_scope.
Open Scope Z_scope.

(** ** Data model *)

(** [tournaments.status]: the handlers only ever write or compare with
    these four literals. *)
Inductive status_t := pending | active | closed | resolved.

#[global] Instance status_t_eq_dec : EqDecision status_t.
Proof. solve_decision. Defined.

(** A row of [users] (lines 89-100).  [wallet_address], [password_hash] and
    [created_at] are never read by the handlers below and are left out. *)
Record user := mkUser {
  email : option string;
  username : string;
  points : Z;
  total_tournaments : Z;
  won_tournaments : Z;
  last_claim_date : option Z
}.

(** A row of [tournaments] (columns as created at lines 1166-1181 and used
    by the Postgres handlers). *)
Record tournament := mkTournament {
  options : list string;
  entry_fee : Z;
  max_participants : Z;
  prize_pool : Z;
  current_participants : Z;
  start_time : Z;
  end_time : Z;
  status : status_t;
  correct_answer : option string
}.

(** A row of [participants] (lines 145-152); the serial [id] and
    [created_at] are generated by the store and never read back. *)
Record participant := mkParticipant {
  tournament_id : Z;
  user_id : Z;
  prediction : string;
  points_paid : Z
}.

#[global] Instance participant_eq_dec : EqDecision participant.
Proof. solve_decision. Defined.

Record db := mkDb {
  users : gmap Z user;
  users_id_seq : Z;
  tournaments : gmap Z tournament;
  participants : list participant
}.

(** Column updates ([UPDATE ... SET col = v]). *)
Definition set_points (v : Z) (u : user) : user :=
  mkUser (email u) (username u) v (total_tournaments u) (won_tournaments u)
         (last_claim_date u).

Definition set_won_tournaments (v : Z) (u : user) : user :=
  mkUser (email u) (username u) (points u) (total_tournaments u) v
         (last_claim_date u).

Definition set_last_claim_date (v : option Z) (u : user) : user :=
  mkUser (email u) (username u) (points u) (total_tournaments u)
         (won_tournaments u) v.

Definition set_status (v : status_t) (t : tournament) : tournament :=
  mkTournament (options t) (entry_fee t) (max_participants t) (prize_pool t)
               (current_participants t) (start_time t) (end_time t) v
               (correct_answer t).

Definition set_correct_answer (v : option string) (t : tournament) : tournament :=
  mkTournament (options t) (entry_fee t) (max_participants t) (prize_pool t)
               (current_participants t) (start_time t) (end_time t) (status t) v.

Definition set_current_participants (v : Z) (t : tournament) : tournament :=
  mkTournament (options t) (entry_fee t) (max_participants t) (prize_pool t)
               v (start_time t) (end_time t) (status t) (correct_answer t).

Definition set_prize_pool (v : Z) (t : tournament) : tournament :=
  mkTournament (options t) (entry_fee t) (max_participants t) v
               (current_participants t) (start_time t) (end_time t) (status t)
               (correct_answer t).

Definition set_users (v : gmap Z user) (d : db) : db :=
  mkDb v (users_id_seq d) (tournaments d) (participants d).

Definition set_tournaments (v : gmap Z tournament) (d : db) : db :=
  mkDb (users d) (users_id_seq d) v (participants d).

Definition set_participants (v : list participant) (d : db) : db :=
  mkDb (users d) (users_id_seq d) (tournaments d) v.

(** ** What the store holds *)

(** INTEGER is the 32-bit signed integer type of the store. *)
Definition is_int4 (z : Z) : bool := (-2147483648 <=? z) && (z <=? 2147483647).

(** TEXT holds every character but NUL. *)
Definition is_text (s : string) : bool :=
  negb (bool_decide ("000"%char ∈ list_ascii_of_string s)).

(** The errors of the store that the handlers below can meet, by the name
    of their SQLSTATE: 22003 for an INTEGER parameter or result out of
    range, 22021 for a TEXT parameter that holds NUL. *)
Inductive store_error :=
| numeric_value_out_of_range
| character_not_in_repertoire.

(** ** HTTP responses *)

(** The JSON bodies the handlers send.  [Registered] stands for
    [{token, user: {id, email, username, points}}] (the signed token is
    opaque); [DriverFailure] for [{error: err.message}] where [err] is the
    driver's error for a statement the store refused; [CooldownActive] for
    [{error: 'Cooldown active', details, next_claim_available}], where
    [details], the hours left as floating-point arithmetic rounds them to
    one decimal (line 740), is left out; [PointsAwarded] for
    [{success: true, points, next_claim_available}]. *)
Inductive body :=
| Success (message : string) (prize_per_winner : option Z)
| Failure (error : string)
| DriverFailure (e : store_error)
| Registered (id : Z) (email : option string) (username : string) (points : Z)
| CooldownActive (next_claim_available : Z)
| PointsAwarded (points next_claim_available : Z).

Record response := mkResponse { status_code : Z; json : body }.

(** [String.prototype.includes]. *)
Fixpoint includes (needle hay : string) : bool :=
  String.prefix needle hay
  || match hay with
     | EmptyString => false
     | String _ rest => includes needle rest
     end.

(** ** Transactions *)

(** What a [try] block comes to: its end, an [Error] thrown by the handler,
    or the error the driver raises for a statement the store refuses. *)
Inductive outcome (A : Type) :=
| Done (a : A) (d : db)
| Thrown (message : string)
| Raised (e : store_error).
Arguments Done {A} a d.
Arguments Thrown {A} message.
Arguments Raised {A} e.

Definition txn (A : Type) : Type := db -> outcome A.

#[global] Instance txn_ret : MRet txn := fun A a d => Done a d.

#[global] Instance txn_bind : MBind txn := fun A B k m d =>
  match m d with
  | Done a d' => k a d'
  | Thrown msg => Thrown msg
  | Raised e => Raised e
  end.

(** [throw new Error(msg)] inside the [try] block. *)
Definition throw {A} (msg : string) : txn A := fun _ => Thrown msg.

(** A value of the request bound to an INTEGER parameter of a statement. *)
Definition integer (z : Z) : txn unit := fun d =>
  if is_int4 z then Done tt d else Raised numeric_value_out_of_range.

(** A value of the request bound to a TEXT parameter of a statement. *)
Definition text (s : string) : txn unit := fun d =>
  if is_text s then Done tt d else Raised character_not_in_repertoire.

(** A [SELECT]: reads the current state. *)
Definition query {A} (q : db -> A) : txn A := fun d => Done (q d) d.

(** An [UPDATE] or [INSERT]: replaces the current state. *)
Definition exec (w : db -> db) : txn unit := fun d => Done tt (w d).

(** An [UPDATE] that computes INTEGER values: when a value it computes for
    the row it matches is out of range ([fits] fails), it raises and writes
    nothing. *)
Definition update (fits : db -> bool) (w : db -> db) : txn unit := fun d =>
  if fits d then Done tt (w d) else Raised numeric_value_out_of_range.

(** [for (const x of xs) await f(x)]. *)
Fixpoint for_each {A} (f : A -> txn unit) (xs : list A) : txn unit :=
  match xs with
  | [] => mret tt
  | x :: rest => f x ;; for_each f rest
  end.

(** ** Enter tournament: POST /api/tournaments/:id/enter (lines 599-686) *)

(** The joined row of the first query: [t.*] and [u.points AS user_points]. *)
Definition select_tournament_and_user (tournamentId userId : Z) (d : db)
  : list (tournament * Z) :=
  match tournaments d !! tournamentId, users d !! userId with
  | Some t, Some u =>
      if decide (status t = active) then [(t, points u)] else []
  | _, _ => []
  end.

(** [SELECT id FROM participants WHERE tournament_id = $1 AND user_id = $2]. *)
Definition select_existing (tournamentId userId : Z) (d : db) : list participant :=
  filter (fun p => tournament_id p = tournamentId /\ user_id p = userId)
         (participants d).

(** What [UPDATE users SET points = points - $1 WHERE id = $2] writes. *)
Definition debited (fee userId : Z) (d : db) : db :=
  set_users (alter (fun u => set_points (points u - fee) u) userId (users d)) d.

Definition debit_fits (fee userId : Z) (d : db) : bool :=
  match users d !! userId with
  | Some u => is_int4 (points u - fee)
  | None => true
  end.

(** [UPDATE users SET points = points - $1 WHERE id = $2]. *)
Definition debit_user (fee userId : Z) : txn unit :=
  update (debit_fits fee userId) (debited fee userId).

(** [INSERT INTO participants (tournament_id, user_id, prediction, points_paid)]. *)
Definition insert_participant (p : participant) (d : db) : db :=
  set_participants (participants d ++ [p]) d.

(** What [UPDATE tournaments SET current_participants = current_participants
    + 1, prize_pool = prize_pool + $1 WHERE id = $2] writes. *)
Definition counted (fee tournamentId : Z) (d : db) : db :=
  set_tournaments
    (alter (fun t => set_prize_pool (prize_pool t + fee)
                       (set_current_participants (current_participants t + 1) t))
           tournamentId (tournaments d)) d.

Definition count_fits (fee tournamentId : Z) (d : db) : bool :=
  match tournaments d !! tournamentId with
  | Some t => is_int4 (current_participants t + 1) && is_int4 (prize_pool t + fee)
  | None => true
  end.

(** [UPDATE tournaments SET current_participants = current_participants + 1,
    prize_pool = prize_pool + $1 WHERE id = $2]. *)
Definition count_entry (fee tournamentId : Z) : txn unit :=
  update (count_fits fee tournamentId) (counted fee tournamentId).

(** [tournamentId] and [userId] are bound to the INTEGER parameters of the
    first query, [prediction] to a TEXT parameter of the insert.  The entry
    fee goes back to the store as it came from its INTEGER column. *)
Definition enter_txn (tournamentId userId : Z) (prediction : string) : txn unit :=
  integer tournamentId ;;
  integer userId ;;
  rows ← query (select_tournament_and_user tournamentId userId);
  match rows with
  | [] => throw "Tournament not found or not active"
  | (t, user_points) :: _ =>
      if user_points <? entry_fee t then throw "Insufficient points"
      else if current_participants t >=? max_participants t
      then throw "Tournament full"
      else
        existing ← query (select_existing tournamentId userId);
        if (0 <? length existing)%nat then throw "Already participated"
        else
          debit_user (entry_fee t) userId ;;
          text prediction ;;
          exec (insert_participant
                  (mkParticipant tournamentId userId prediction (entry_fee t))) ;;
          count_entry (entry_fee t) tournamentId
  end.

(** The [try]/[catch] around the transaction: [COMMIT] keeps the writes,
    [ROLLBACK] restores the state as it was at [BEGIN].  The messages of the
    driver's errors are not empty and do not contain 'not found'. *)
Definition enter (tournamentId userId : Z) (prediction : string) (d : db)
  : db * response :=
  match enter_txn tournamentId userId prediction d with
  | Done _ d' =>
      (d', mkResponse 200 (Success "Successfully entered tournament" None))
  | Thrown msg =>
      (d, mkResponse (if includes "not found" msg then 404 else 400)
                     (Failure (if decide (msg = "") then "Failed to enter tournament"
                               else msg)))
  | Raised e => (d, mkResponse 400 (DriverFailure e))
  end.

(** ** Resolve tournament: POST /api/admin/tournaments/:id/resolve
    (lines 959-1014) *)

(** [UPDATE tournaments SET status = 'resolved', correct_answer = $2
    WHERE id = $3]. *)
Definition mark_resolved (tournamentId : Z) (answer : string) (d : db) : db :=
  set_tournaments
    (alter (fun t => set_correct_answer (Some answer) (set_status resolved t))
           tournamentId (tournaments d)) d.

(** [SELECT p.user_id, t.prize_pool FROM participants p JOIN tournaments t
    ON p.tournament_id = t.id WHERE p.tournament_id = $1 AND p.prediction = $2]:
    one row [(user_id, prize_pool)] per matching participant whose
    tournament row exists. *)
Definition select_winners (tournamentId : Z) (answer : string) (d : db)
  : list (Z * Z) :=
  omap (fun p =>
          match tournaments d !! tournament_id p with
          | Some t =>
              if decide (tournament_id p = tournamentId /\ prediction p = answer)
              then Some (user_id p, prize_pool t)
              else None
          | None => None
          end)
       (participants d).

(** What [UPDATE users SET points = points + $1, won_tournaments =
    won_tournaments + 1 WHERE id = $2] writes. *)
Definition credited (prize userId : Z) (d : db) : db :=
  set_users
    (alter (fun u => set_won_tournaments (won_tournaments u + 1)
                       (set_points (points u + prize) u))
           userId (users d)) d.

Definition credit_fits (prize userId : Z) (d : db) : bool :=
  match users d !! userId with
  | Some u => is_int4 (points u + prize) && is_int4 (won_tournaments u + 1)
  | None => true
  end.

(** [UPDATE users SET points = points + $1, won_tournaments =
    won_tournaments + 1 WHERE id = $2]. *)
Definition credit_winner (prize userId : Z) : txn unit :=
  update (credit_fits prize userId) (credited prize userId).

(** [correct_answer] is bound to a TEXT parameter and [tournamentId] to an
    INTEGER parameter of the first statement.  The transaction returns
    [None] on the early return with no winners and
    [Some (winners.rows.length, prizePerWinner)] otherwise.
    [Math.floor(a / n)] with [n > 0] is [a / n] on [Z], which is no further
    from 0 than the prize pool it divides. *)
Definition resolve_txn (tournamentId : Z) (answer : string)
  : txn (option (nat * Z)) :=
  text answer ;;
  integer tournamentId ;;
  exec (mark_resolved tournamentId answer) ;;
  winners ← query (select_winners tournamentId answer);
  match winners with
  | [] => mret None
  | (_, pool) :: _ =>
      let prizePerWinner := pool / Z.of_nat (length winners) in
      for_each (fun w => credit_winner prizePerWinner (fst w)) winners ;;
      mret (Some (length winners, prizePerWinner))
  end.

(** Decimal rendering of [winners.rows.length] in a template string. *)
Definition string_of_nat (n : nat) : string :=
  NilZero.string_of_uint (Nat.to_uint n).

Definition resolve (tournamentId : Z) (answer : string) (d : db)
  : db * response :=
  match resolve_txn tournamentId answer d with
  | Done None d' =>
      (d', mkResponse 200 (Success "Tournament resolved, no winners" None))
  | Done (Some (n, prize)) d' =>
      (d', mkResponse 200
             (Success ("Tournament resolved with " +:+ string_of_nat n
                       +:+ " winners") (Some prize)))
  | Thrown _ | Raised _ =>
      (d, mkResponse 500 (Failure "Failed to resolve tournament"))
  end.

(** ** Claim free points: POST /api/user/claim-free-points (lines 722-765) *)

Definition pointsToAdd : Z := 500.
Definition cooldownHours : Z := 24.

(** Milliseconds in an hour ([36e5]). *)
Definition ms_per_hour : Z := 3600000.

(** What [UPDATE users SET points = points + $1, last_claim_date = NOW()
    WHERE id = $2] writes; [db_now] is the store's clock. *)
Definition awarded (userId db_now : Z) (d : db) : db :=
  set_users
    (alter (fun u => set_last_claim_date (Some db_now)
                       (set_points (points u + pointsToAdd) u))
           userId (users d)) d.

Definition award_fits (userId : Z) (d : db) : bool :=
  match users d !! userId with
  | Some u => is_int4 (points u + pointsToAdd)
  | None => true
  end.

(** [UPDATE users SET points = points + $1, last_claim_date = NOW()
    WHERE id = $2]. *)
Definition award_claim (userId db_now : Z) : txn unit :=
  update (award_fits userId) (awarded userId db_now).

(** The [try] block.  [now] is [new Date()] of the handler.
    [hoursSinceClaim < cooldownHours] compares
    [Math.abs(now - lastClaim) / 36e5] with [24]; on integer milliseconds
    that is [|now - lastClaim| < 24 * 3600000]. *)
Definition claim_free_points_try (userId now db_now : Z) : txn response :=
  integer userId ;;
  row ← query (fun d => users d !! userId);
  match row with
  | None => mret (mkResponse 404 (Failure "User not found"))
  | Some u =>
      let grant :=
        award_claim userId db_now ;;
        mret (mkResponse 200
                (PointsAwarded pointsToAdd (now + cooldownHours * 60 * 60 * 1000))) in
      match last_claim_date u with
      | Some lastClaim =>
          if Z.abs (now - lastClaim) <? cooldownHours * ms_per_hour
          then mret (mkResponse 429
                       (CooldownActive (lastClaim + cooldownHours * 60 * 60 * 1000)))
          else grant
      | None => grant
      end
  end.

(** The [catch] answers 500; the one statement that writes has then
    written nothing. *)
Definition claim_free_points (userId now db_now : Z) (d : db) : db * response :=
  match claim_free_points_try userId now db_now d with
  | Done r d' => (d', r)
  | Thrown _ | Raised _ => (d, mkResponse 500 (Failure "Failed to claim points"))
  end.

(** ** Lifecycle sweep: the cron job (lines 1017-1045) *)

Definition starts (now : Z) (t : tournament) : Prop :=
  status t = pending /\ start_time t <= now.

Definition expires (now : Z) (t : tournament) : Prop :=
  status t = active /\ end_time t <= now.

#[global] Instance starts_dec now t : Decision (starts now t).
Proof. unfold starts. apply _. Defined.

#[global] Instance expires_dec now t : Decision (expires now t).
Proof. unfold expires. apply _. Defined.

(** [UPDATE tournaments SET status = 'active' WHERE status = 'pending' AND
    start_time <= $1]. *)
Definition start_due (now : Z) (d : db) : db :=
  set_tournaments
    ((fun t => if decide (starts now t) then set_status active t else t)
       <$> tournaments d) d.

(** [UPDATE tournaments SET status = 'closed' WHERE status = 'active' AND
    end_time <= $1]. *)
Definition close_due (now : Z) (d : db) : db :=
  set_tournaments
    ((fun t => if decide (expires now t) then set_status closed t else t)
       <$> tournaments d) d.

(** [rowCount] of the two updates, as logged at line 1038. *)
Definition started_count (now : Z) (d : db) : nat :=
  size (filter (fun kt => starts now kt.2) (tournaments d)).

Definition closed_count (now : Z) (d : db) : nat :=
  size (filter (fun kt => expires now kt.2) (tournaments d)).

Definition sweep (now : Z) (d : db) : db * (nat * nat) :=
  let d1 := start_due now d in
  (close_due now d1, (started_count now d, closed_count now d1)).

(** ** Registration: POST /api/auth/register (lines 324-387) *)

(** JavaScript truthiness of an optional string field of the request body. *)
Definition truthy (s : option string) : bool :=
  match s with
  | Some s => negb (bool_decide (s = ""))
  | None => false
  end.

Definition is_lower (c : ascii) : bool :=
  ((97 <=? nat_of_ascii c) && (nat_of_ascii c <=? 122))%nat.
Definition is_upper (c : ascii) : bool :=
  ((65 <=? nat_of_ascii c) && (nat_of_ascii c <=? 90))%nat.
Definition is_digit (c : ascii) : bool :=
  ((48 <=? nat_of_ascii c) && (nat_of_ascii c <=? 57))%nat.
(** The class [[@$!\-%*?&]]. *)
Definition is_special (c : ascii) : bool :=
  bool_decide (c ∈ list_ascii_of_string "@$!-%*?&").

(** [passwordRegex.test(password)] for
    [/^(?=.*[a-z])(?=.*[A-Z])(?=.*\d)(?=.*[@$!\-%*?&])[A-Za-z\d@$!\-%*?&]{8,}$/]. *)
Definition passwordRegex_test (password : string) : bool :=
  let cs := list_ascii_of_string password in
  existsb is_lower cs && existsb is_upper cs && existsb is_digit cs
  && existsb is_special cs
  && forallb (fun c => is_lower c || is_upper c || is_digit c || is_special c) cs
  && (8 <=? length cs)%nat.

(** The [email TEXT UNIQUE] and [id SERIAL PRIMARY KEY] constraints on an
    insert of a row with key [id] and e-mail [e]. *)
Definition insert_conflicts (id : Z) (e : option string) (d : db) : Prop :=
  is_Some (users d !! id)
  \/ (is_Some e /\ map_Exists (fun _ u => email u = e) (users d)).

#[global] Instance insert_conflicts_dec id e d : Decision (insert_conflicts id e d).
Proof. unfold insert_conflicts. apply _. Defined.

(** [INSERT INTO users (email, username, password_hash, points) VALUES
    ($1, $2, $3, 1000)]; the other columns take their defaults.  The serial
    key is drawn from [users_id_seq], which advances whether or not the
    insert goes through. *)
Definition register (email_ wallet_address username_ password : option string)
    (d : db) : db * response :=
  if negb (truthy email_) && negb (truthy wallet_address)
  then (d, mkResponse 400 (Failure "Email or wallet address required"))
  else if negb (truthy username_)
  then (d, mkResponse 400 (Failure "Username required"))
  else if truthy email_ && truthy password
          && negb (passwordRegex_test (default "" password))
  then (d, mkResponse 400 (Failure "Password must be at least 8 characters with uppercase, lowercase, number, and special character (@$!%*?&-)"))
  else
    let e := if truthy email_ then email_ else None in
    let new_id := users_id_seq d in
    let d1 := mkDb (users d) (new_id + 1) (tournaments d) (participants d) in
    if decide (insert_conflicts new_id e d)
    then (d1, mkResponse 500 (Failure "Server error"))
    else
      let name := default "" username_ in
      (set_users (<[new_id := mkUser e name 1000 0 0 None]> (users d1)) d1,
       mkResponse 201 (Registered new_id e name 1000)).

(** ** Operation sequences *)

Inductive request :=
| Register (email_ wallet_address username_ password : option string)
| Enter (tournamentId userId : Z) (prediction : string)
| Resolve (tournamentId : Z) (correct_answer : string)
| ClaimFree (userId now db_now : Z)
| Sweep (now : Z).

Definition handle (r : request) (d : db) : db * option response :=
  match r with
  | Register e w n p => prod_map id Some (register e w n p d)
  | Enter t u p => prod_map id Some (enter t u p d)
  | Resolve t a => prod_map id Some (resolve t a d)
  | ClaimFree u now db_now => prod_map id Some (claim_free_points u now db_now d)
  | Sweep now => ((sweep now d).1, None)
  end.

Definition step (d : db) (r : request) : db := (handle r d).1.

(** The state after serving the requests in order. *)
Definition run (rs : list request) (d : db) : db := foldl step d rs.

(** ** Sample states *)

Definition bitcoin : tournament :=
  mkTournament ["Above $45,000"; "Below $45,000"] 100 50 0 0 0 7200000 active None.

Definition demo_user : user := mkUser (Some "demo@test.com") "DemoUser" 1000 0 0 None.

Definition demo_db : db := mkDb {[ 1 := demo_user ]} 2 {[ 1 := bitcoin ]} [].

(** * Definitions used by the statements *)

(** The state a successful entry commits: the three writes of lines 646-670
    applied in order. *)
Definition entered (tournamentId userId : Z) (prediction : string)
    (t : tournament) (d : db) : db :=
  counted (entry_fee t) tournamentId
    (insert_participant (mkParticipant tournamentId userId prediction (entry_fee t))
       (debited (entry_fee t) userId d)).

Definition entry_ok : response :=
  mkResponse 200 (Success "Successfully entered tournament" None).

(** The four entry preconditions of section 4.2 of the specification. *)
Record can_enter (tournamentId userId : Z) (t : tournament) (u : user) (d : db)
  : Prop := mkCanEnter {
  ce_tournament : tournaments d !! tournamentId = Some t;
  ce_active : status t = active;
  ce_user : users d !! userId = Some u;
  ce_funds : entry_fee t <= points u;
  ce_room : current_participants t < max_participants t;
  ce_fresh : forall q, q ∈ participants d ->
               ~ (tournament_id q = tournamentId /\ user_id q = userId)
}.

(** The error kinds of section 4.2 of the specification. *)
Inductive error_kind :=
| NotFound | NotActive | InsufficientFunds | Full | AlreadyEntered.

#[global] Instance error_kind_eq_dec : EqDecision error_kind.
Proof. solve_decision. Defined.

(** Whether the pair already has a participant row. *)
Definition already_entered (tournamentId userId : Z) (d : db) : bool :=
  bool_decide (Exists (fun q => tournament_id q = tournamentId /\ user_id q = userId)
                      (participants d)).

(** The first violated precondition, in the order the specification lists
    them (section 4.2), for a user holding [user_points]. *)
Definition spec_first_violation (t : option tournament) (user_points : Z)
    (entered_before : bool) : option error_kind :=
  match t with
  | None => Some NotFound
  | Some t =>
      if decide (status t = active) then
        if decide (entry_fee t <= user_points) then
          if decide (current_participants t < max_participants t) then
            if entered_before then Some AlreadyEntered else None
          else Some Full
        else Some InsufficientFunds
      else Some NotActive
  end.

(** What [enter] answers for each kind: lines 622, 629, 633, 643 and the
    status code chosen at line 680. *)
Definition error_response (k : error_kind) : response :=
  match k with
  | NotFound | NotActive =>
      mkResponse 404 (Failure "Tournament not found or not active")
  | InsufficientFunds => mkResponse 400 (Failure "Insufficient points")
  | Full => mkResponse 400 (Failure "Tournament full")
  | AlreadyEntered => mkResponse 400 (Failure "Already participated")
  end.

(** A state whose only tournament has not started. *)
Definition pending_db : db :=
  mkDb {[ 1 := demo_user ]} 2 {[ 1 := set_status pending bitcoin ]} [].

(** The cooldown test of line 739: a claim date is on record and lies less
    than 24 hours away from [now], before or after it. *)
Definition cooling (now : Z) (u : user) : Prop :=
  exists lastClaim, last_claim_date u = Some lastClaim
                    /\ Z.abs (now - lastClaim) < cooldownHours * ms_per_hour.

(** The cooldown test in the specification's words (section 4.4): a claim
    date is on record and fewer than 24 hours have elapsed since it. *)
Definition spec_cooling (now : Z) (u : user) : Prop :=
  exists lastClaim, last_claim_date u = Some lastClaim
                    /\ now - lastClaim < cooldownHours * ms_per_hour.

(** A user who claimed at time [1001]. *)
Definition claimed_user : user :=
  mkUser (Some "demo@test.com") "DemoUser" 1500 0 0 (Some 1001).

Definition claimed_db : db := mkDb {[ 1 := claimed_user ]} 2 {[ 1 := bitcoin ]} [].

(** The participant rows of a tournament that predicted [answer]. *)
Definition winning (tournamentId : Z) (answer : string) (d : db)
  : list participant :=
  filter (fun p => tournament_id p = tournamentId /\ prediction p = answer)
         (participants d).

(** How many of the rows [W] belong to [userId]. *)
Definition wins (userId : Z) (W : list participant) : nat :=
  length (filter (fun p => user_id p = userId) W).

(** [n] credits of [prize] to one user row (the update of line 995, [n]
    times). *)
Definition credit_times (prize : Z) (n : nat) (u : user) : user :=
  set_won_tournaments (won_tournaments u + Z.of_nat n)
    (set_points (points u + Z.of_nat n * prize) u).

(** The loop of lines 993-998 over the rows [W]. *)
Definition pay (prize pool : Z) (W : list participant) (d : db) : db :=
  foldl (fun d w => credited prize w.1 d) d
        ((fun p => (user_id p, pool)) <$> W).

Definition resolved_msg (n : nat) : string :=
  "Tournament resolved with " +:+ string_of_nat n +:+ " winners".

(** Three winners share a pool of 100: 33 each, 1 point left over. *)
Definition three_way_db : db :=
  mkDb {[ 1 := demo_user; 2 := demo_user; 3 := demo_user; 4 := demo_user ]} 5
       {[ 1 := set_prize_pool 100 (set_status closed bitcoin) ]}
       [ mkParticipant 1 1 "Above $45,000" 25;
         mkParticipant 1 2 "Above $45,000" 25;
         mkParticipant 1 3 "Above $45,000" 25;
         mkParticipant 1 4 "Below $45,000" 25 ].

(** One sweep on a single tournament row: the two updates in order. *)
Definition advance (now : Z) (t : tournament) : tournament :=
  let t1 := if decide (starts now t) then set_status active t else t in
  if decide (expires now t1) then set_status closed t1 else t1.

(** A valid ledger: no negative balance, no negative prize pool, no negative
    entry fee. *)
Definition ledger_ok (d : db) : Prop :=
  map_Forall (fun _ u => 0 <= points u) (users d)
  /\ map_Forall (fun _ t => 0 <= prize_pool t /\ 0 <= entry_fee t) (tournaments d).

(** A day in the life of [demo_db]: a registration, an entry, a granted and
    a refused claim, a sweep past the end time and the resolution. *)
Definition demo_day : list request :=
  [ Register (Some "alice@test.com") None (Some "Alice") None;
    Enter 1 1 "Above $45,000";
    Enter 1 2 "Below $45,000";
    ClaimFree 1 1000 1001;
    ClaimFree 1 2000 2001;
    Sweep 7200000;
    Resolve 1 "Above $45,000" ].

(** The participant rows of a tournament, and the fees they paid. *)
Definition entries (tournamentId : Z) (d : db) : list participant :=
  filter (fun p => tournament_id p = tournamentId) (participants d).

Definition paid (ps : list participant) : Z :=
  foldr (fun p acc => points_paid p + acc) 0 ps.

(** A valid registry: every tournament counts its participant rows, is not
    over capacity, holds what its participants paid, and each of them paid
    the tournament's entry fee. *)
Definition registry_ok (d : db) : Prop :=
  forall tournamentId t, tournaments d !! tournamentId = Some t ->
    current_participants t = Z.of_nat (length (entries tournamentId d))
    /\ current_participants t <= max_participants t
    /\ prize_pool t = paid (entries tournamentId d)
    /\ Forall (fun p => points_paid p = entry_fee t) (entries tournamentId d).

(** Two tournament rows that agree on the columns entry touches. *)
Definition same_books (t t' : tournament) : Prop :=
  entry_fee t' = entry_fee t /\ max_participants t' = max_participants t
  /\ current_participants t' = current_participants t
  /\ prize_pool t' = prize_pool t.

(** The (tournament, user) pair a participant row stands for. *)
Definition entry_key (p : participant) : Z * Z := (tournament_id p, user_id p).

(** At most one participant row per (tournament, user) pair. *)
Definition unique_entries (d : db) : Prop :=
  NoDup (entry_key <$> participants d).

(** The position of a status along pending, active, closed, resolved. *)
Definition rank (s : status_t) : nat :=
  match s with pending => 0 | active => 1 | closed => 2 | resolved => 3 end.

(** The sum of an integer column over a table. *)
Definition total {A} (col : A -> Z) (m : gmap Z A) : Z :=
  map_fold (fun _ row acc => col row + acc) 0 m.

(** A tournament that a single sweep will both start and close. *)
Definition overdue_db : db :=
  mkDb ∅ 1 {[ 1 := set_status pending bitcoin ]} [].

(** ** What the store accepts of an entry and of a settlement *)

(** The values an entry binds and computes are values the store holds: the
    two ids and the new balance, participant count and prize pool are
    within INTEGER, and the prediction holds no NUL. *)
Definition entry_fits (tournamentId userId : Z) (prediction : string)
    (t : tournament) (u : user) : Prop :=
  is_int4 tournamentId = true /\ is_int4 userId = true
  /\ is_text prediction = true
  /\ is_int4 (points u - entry_fee t) = true
  /\ is_int4 (current_participants t + 1) = true
  /\ is_int4 (prize_pool t + entry_fee t) = true.

(** Every balance and every count of won tournaments that the credits of
    [prize] for the rows [W] pass through is within INTEGER. *)
Definition credits_fit (prize : Z) (W : list participant) (d : db) : Prop :=
  forall userId u (n : nat), users d !! userId = Some u ->
    (1 <= n <= wins userId W)%nat ->
    is_int4 (points u + Z.of_nat n * prize) = true
    /\ is_int4 (won_tournaments u + Z.of_nat n) = true.

(** A tournament with a high entry fee that user 2 has entered; user 1 can
    pay the fee too. *)
Definition high_stakes : tournament :=
  mkTournament ["Yes"; "No"] 1500000000 50 1500000000 1 0 7200000 active None.

Definition high_roller : user :=
  mkUser (Some "demo@test.com") "DemoUser" 2000000000 0 0 None.

Definition high_stakes_db : db :=
  mkDb {[ 1 := high_roller; 2 := set_points 0 high_roller ]} 3
       {[ 1 := high_stakes ]} [ mkParticipant 1 2 "Yes" 1500000000 ].

(** A user whose balance is the largest INTEGER, the only entrant of a
    closed tournament. *)
Definition capped_user : user :=
  mkUser (Some "demo@test.com") "DemoUser" 2147483647 0 0 None.

Definition capped_db : db :=
  mkDb {[ 1 := capped_user ]} 2
       {[ 1 := set_prize_pool 100
                 (set_current_participants 1 (set_status closed bitcoin)) ]}
       [ mkParticipant 1 1 "Above $45,000" 100 ].

(** [bitcoin] with every place taken. *)
Definition full_db : db :=
  mkDb {[ 1 := demo_user ]} 2 {[ 1 := set_current_participants 50 bitcoin ]} [].

(** ** User statistics: GET /api/user/stats (lines 689-719) *)

(** The body sent: [StatsNotFound] for 404 [{error: 'User not found'}],
    [Stats] for the user row (without its password hash) with [accuracy]
    and [next_claim_available]. *)
Inductive stats_body :=
| StatsNotFound
| Stats (row : user) (accuracy : Z) (next_claim_available : Z).

Section Stats.
  (** [Math.round((won / total) * 100)] of line 699, a floating-point
      computation, as a function of the two counters. *)
  Variable round_percent : Z -> Z -> Z.

(** [now] is [new Date()] at line 705. *)
Definition user_stats (userId now : Z) (d : db) : stats_body :=
  match users d !! userId with
  | None => StatsNotFound
  | Some u =>
      let accuracy :=
        if 0 <? total_tournaments u
        then round_percent (won_tournaments u) (total_tournaments u)
        else 0 in
      let nextClaimAvailable :=
        match last_claim_date u with
        | Some lastClaim => lastClaim + 24 * 60 * 60 * 1000
        | None => now
        end in
      Stats u accuracy nextClaimAvailable
  end.
End Stats.

(** ** The SQLite variant of the server (lines 1083-1693)

    The second server of [src/server.js] keeps the same three tables in
    SQLite.  Its handlers chain callbacks on one connection; served one
    request at a time they run the statements below in order.  SQLite
    integers have 64 bits, its parameters are not typed and its text may
    hold NUL: no statement below raises. *)

Definition set_total_tournaments (v : Z) (u : user) : user :=
  mkUser (email u) (username u) (points u) v (won_tournaments u)
         (last_claim_date u).

Module Sqlite.

(** [UPDATE users SET points = points - ?, total_tournaments =
    total_tournaments + 1 WHERE id = ?] (line 1500). *)
Definition debit_user (fee userId : Z) (d : db) : db :=
  set_users
    (alter (fun u => set_total_tournaments (total_tournaments u + 1)
                       (set_points (points u - fee) u))
           userId (users d)) d.

(** POST /api/tournaments/:id/enter (lines 1460-1539): the same checks in
    the same order as the Postgres handler; a [throw] stands for
    [db.run('ROLLBACK')] followed by the error response. *)
Definition enter_txn (tournamentId userId : Z) (prediction : string) : txn unit :=
  rows ← query (select_tournament_and_user tournamentId userId);
  match rows with
  | [] => throw "Tournament not found or not active"
  | (data, data_points) :: _ =>
      if data_points <? entry_fee data then throw "Insufficient points"
      else if current_participants data >=? max_participants data
      then throw "Tournament full"
      else
        existing ← query (select_existing tournamentId userId);
        match existing with
        | _ :: _ => throw "Already participated"
        | [] =>
            exec (debit_user (entry_fee data) userId) ;;
            exec (insert_participant
                    (mkParticipant tournamentId userId prediction (entry_fee data))) ;;
            exec (counted (entry_fee data) tournamentId)
        end
  end.

(** Every refusal is sent with status 400 (lines 1477, 1482, 1487, 1496). *)
Definition enter (tournamentId userId : Z) (prediction : string) (d : db)
  : db * response :=
  match enter_txn tournamentId userId prediction d with
  | Done _ d' =>
      (d', mkResponse 200 (Success "Successfully entered tournament" None))
  | Thrown msg => (d, mkResponse 400 (Failure msg))
  | Raised _ => (d, mkResponse 500 (Failure "Failed to enter tournament"))
  end.

(** POST /api/admin/tournaments/:id/start (lines 1566-1579):
    [UPDATE tournaments SET status = "active" WHERE id = ? AND status =
    "pending"], then the success response whatever the update matched. *)
Definition start (tournamentId : Z) (d : db) : db * response :=
  (set_tournaments
     (alter (fun t => if decide (status t = pending) then set_status active t
                      else t)
            tournamentId (tournaments d)) d,
   mkResponse 200 (Success "Tournament started" None)).

(** POST /api/admin/tournaments/:id/resolve (lines 1582-1640): the update,
    the winners query and one credit per winner row, queued in row order. *)
Definition resolve_txn (tournamentId : Z) (answer : string)
  : txn (option (nat * Z)) :=
  exec (mark_resolved tournamentId answer) ;;
  winners ← query (select_winners tournamentId answer);
  match winners with
  | [] => mret None
  | (_, pool) :: _ =>
      let prizePerWinner := pool / Z.of_nat (length winners) in
      for_each (fun winner => exec (credited prizePerWinner (fst winner)))
               winners ;;
      mret (Some (length winners, prizePerWinner))
  end.

Definition resolve (tournamentId : Z) (answer : string) (d : db)
  : db * response :=
  match resolve_txn tournamentId answer d with
  | Done None d' =>
      (d', mkResponse 200 (Success "Tournament resolved, no winners" None))
  | Done (Some (n, prize)) d' =>
      (d', mkResponse 200
             (Success ("Tournament resolved, " +:+ string_of_nat n +:+ " winners")
                      (Some prize)))
  | Thrown _ | Raised _ => (d, mkResponse 500 (Failure "Failed to get winners"))
  end.

(** The cron job (lines 1643-1656): the two updates of the sweep. *)
Definition cron (now : Z) (d : db) : db := close_due now (start_due now d).

Inductive request :=
| Enter (tournamentId userId : Z) (prediction : string)
| Start (tournamentId : Z)
| Resolve (tournamentId : Z) (correct_answer : string)
| Cron (now : Z).

Definition step (d : db) (r : request) : db :=
  match r with
  | Enter t u p => (enter t u p d).1
  | Start t => (start t d).1
  | Resolve t a => (resolve t a d).1
  | Cron now => cron now d
  end.

Definition run (rs : list request) (d : db) : db := foldl step d rs.

End Sqlite.

(** The participant rows of a user. *)
Definition entries_of (userId : Z) (d : db) : list participant :=
  filter (fun p => user_id p = userId) (participants d).

(** [total_tournaments] counts the user's participant rows. *)
Definition played_ok (d : db) : Prop :=
  forall userId u, users d !! userId = Some u ->
    total_tournaments u = Z.of_nat (length (entries_of userId d)).

(** ** Authentication middleware (lines 289-314) *)

(** [String.prototype.split] with a one-character separator. *)
Fixpoint split (sep : ascii) (s : string) : list string :=
  match s with
  | EmptyString => [EmptyString]
  | String c rest =>
      if decide (c = sep) then EmptyString :: split sep rest
      else match split sep rest with
           | [] => [String c EmptyString]
           | word :: words => String c word :: words
           end
  end.

(** What [jwt.verify] hands to its callback: the payload's [userId], a
    [TokenExpiredError], or any other error. *)
Inductive jwt_verdict :=
| Payload (userId : Z)
| TokenExpiredError
| OtherVerifyError.

(** The callback of [jwt.verify] (lines 297-313): the error response, or the
    [req.userId] the next handler runs with. *)
Definition after_verify (v : jwt_verdict) : response + Z :=
  match v with
  | Payload userId => inr userId
  | TokenExpiredError => inl (mkResponse 401 (Failure "Token expired"))
  | OtherVerifyError => inl (mkResponse 403 (Failure "Invalid token"))
  end.

(** [jwt_verify] stands for [jwt.verify] with the server's secret;
    [authorization] is [req.headers['authorization']]. *)
Definition authenticateToken (jwt_verify : string -> jwt_verdict)
    (authorization : option string) : response + Z :=
  let token :=
    match authorization with
    | Some authHeader =>
        if decide (authHeader = "") then None else split " " authHeader !! 1%nat
    | None => None
    end in
  match token with
  | Some token =>
      if decide (token = "")
      then inl (mkResponse 401 (Failure "Access token required"))
      else after_verify (jwt_verify token)
  | None => inl (mkResponse 401 (Failure "Access token required"))
  end.

(** The header the client sends (src/unnamed/part_000, line 121):
    [`Bearer ${token}`]. *)
Definition bearer (token : string) : string := "Bearer " +:+ token.

(** ** Login: POST /api/auth/login (lines 391-453 and 1385-1426) *)

(** The two columns of [users] (lines 92 and 94) that only registration
    and login touch, kept under the key of the user row. *)
Record credential := mkCredential {
  wallet_address : option string;
  password_hash : option string
}.

(** A row with both columns NULL, as every insert that does not name them
    leaves it. *)
Definition credential_of (creds : gmap Z credential) (id : Z) : credential :=
  default (mkCredential None None) (creds !! id).

Inductive login_body :=
| LoginFailure (error : string)
| LoggedIn (id : Z) (username_ : string) (email_ : option string) (points_ : Z).

Record login_response := mkLogin { login_status : Z; login_json : login_body }.

Section Login.
  (** [bcrypt.hash(password, 10)] and [bcrypt.compare(password, hash)]. *)
  Variable bcrypt_hash : string -> string.
  Variable bcrypt_compare : string -> string -> bool.
  (** The row a query without ORDER BY returns first (None: no row). *)
  Variable first_row : list (Z * user) -> option (Z * user).

(** Registration as it writes the credential columns (lines 352-360): the
    insert names [password_hash], set only when both e-mail and password
    were sent, and never [wallet_address]. *)
Definition register_credentials
    (email_ wallet password : option string) (username_ : option string)
    (d : db) (creds : gmap Z credential)
  : db * gmap Z credential * response :=
  let '(d', r) := register email_ wallet username_ password d in
  match json r with
  | Registered id _ _ _ =>
      let hash := if truthy email_ && truthy password
                  then Some (bcrypt_hash (default "" password)) else None in
      (d', <[id := mkCredential None hash]> creds, r)
  | _ => (d', creds, r)
  end.

(** [SELECT * FROM users WHERE wallet_address = $1]. *)
Definition by_wallet (wallet : string) (d : db) (creds : gmap Z credential)
  : list (Z * user) :=
  filter (fun row => wallet_address (credential_of creds row.1) = Some wallet)
         (map_to_list (users d)).

(** [SELECT * FROM users WHERE username = $1 OR email = $2]. *)
Definition by_identifier (identifier : string) (d : db) : list (Z * user) :=
  filter (fun row => username row.2 = identifier \/ email row.2 = Some identifier)
         (map_to_list (users d)).

(** [SELECT * FROM users WHERE email = ?] (line 1394). *)
Definition by_email (e : string) (d : db) : list (Z * user) :=
  filter (fun row => email row.2 = Some e) (map_to_list (users d)).

Definition logged_in (row : Z * user) : login_response :=
  mkLogin 200 (LoggedIn row.1 (username row.2) (email row.2) (points row.2)).

(** The Postgres handler (lines 391-453).  A password that was not sent
    makes [bcrypt.compare] throw, which the [catch] answers with 500. *)
Definition login (identifier wallet password : option string)
    (d : db) (creds : gmap Z credential) : login_response :=
  let useWallet := truthy wallet && negb (truthy identifier) in
  if negb (truthy identifier) && negb (truthy wallet)
  then mkLogin 400 (LoginFailure
         "Identifier (username/email) or wallet address required")
  else
    let rows := if useWallet then by_wallet (default "" wallet) d creds
                else by_identifier (default "" identifier) d in
    match first_row rows with
    | None => mkLogin 404 (LoginFailure "User not found")
    | Some row =>
        if useWallet then logged_in row
        else
          match password_hash (credential_of creds row.1) with
          | None => mkLogin 401 (LoginFailure "Invalid credentials")
          | Some hash =>
              if decide (hash = "")
              then mkLogin 401 (LoginFailure "Invalid credentials")
              else
                match password with
                | None => mkLogin 500 (LoginFailure "Server error during login")
                | Some pw =>
                    if bcrypt_compare pw hash then logged_in row
                    else mkLogin 401 (LoginFailure "Invalid password")
                end
          end
    end.

(** The SQLite handler (lines 1385-1426): the password is compared only
    when the row has a hash and the request has a password. *)
Definition sqlite_login (email_ wallet password : option string)
    (d : db) (creds : gmap Z credential) : login_response :=
  if negb (truthy email_) && negb (truthy wallet)
  then mkLogin 400 (LoginFailure "Email or wallet address required")
  else
    let rows := if truthy email_ then by_email (default "" email_) d
                else by_wallet (default "" wallet) d creds in
    match first_row rows with
    | None => mkLogin 404 (LoginFailure "User not found")
    | Some row =>
        if truthy (password_hash (credential_of creds row.1)) && truthy password
        then
          if bcrypt_compare (default "" password)
               (default "" (password_hash (credential_of creds row.1)))
          then logged_in row
          else mkLogin 401 (LoginFailure "Invalid password")
        else logged_in row
    end.

End Login.

(** What is known of the first row of an unordered query: it is one of the
    rows, and there is one unless there is no row. *)
Definition picks_a_row (first_row : list (Z * user) -> option (Z * user)) : Prop :=
  (forall rows row, first_row rows = Some row -> row ∈ rows)
  /\ (forall rows, first_row rows = None -> rows = []).



(** ** The start-up migration of [tournaments] (lines 118-141)

    What the statements of the migration need of the table, and what they
    leave: the set of its columns and the set of those that are NOT NULL
    without a default. *)

Record table := mkTable { columns : gset string; not_null : gset string }.

(** Steps 4 to 7 in order; [None] when a statement raises, which ends the
    start-up block at its [catch] (line 170).  The table itself may be
    missing ([None]).  [all_typed] tells whether the backfill of step 5 left
    no row without a type id, which is what step 7 checks.
    - step 4: [ADD COLUMN IF NOT EXISTS tournament_type_id], a column
      without a default, as this statement creates it;
    - step 5: [UPDATE ... WHERE tt.name = COALESCE(t.tournament_type, ...)
      AND t.tournament_type_id IS NULL], which names both columns;
    - step 6: [DROP COLUMN IF EXISTS tournament_type];
    - step 7: [ALTER COLUMN tournament_type_id SET NOT NULL]. *)
Definition migrate (all_typed : bool) (tournaments_table : option table)
  : option table :=
  match tournaments_table with
  | None => None
  | Some t =>
      let t4 := mkTable (columns t ∪ {[ "tournament_type_id" ]}) (not_null t) in
      if decide ("tournament_type" ∈ columns t4) then
        let t6 := mkTable (columns t4 ∖ {[ "tournament_type" ]})
                          (not_null t4 ∖ {[ "tournament_type" ]}) in
        if all_typed
        then Some (mkTable (columns t6) (not_null t6 ∪ {[ "tournament_type_id" ]}))
        else None
      else None
  end.

(** A statement that names columns the table does not have raises. *)
Definition names_only_columns (named : list string) (tournaments_table : option table)
  : bool :=
  match tournaments_table with
  | Some t => forallb (fun c => bool_decide (c ∈ columns t)) named
  | None => false
  end.

(** An [INSERT] is accepted when it names only columns of the table and
    names every column that is NOT NULL without a default. *)
Definition insert_accepted (named : list string) (tournaments_table : option table)
  : bool :=
  names_only_columns named tournaments_table
  && match tournaments_table with
     | Some t => bool_decide (forall c, c ∈ not_null t -> c ∈ named)
     | None => false
     end.

(** The columns the listing query reads (lines 510-529). *)
Definition listing_columns : list string :=
  [ "id"; "title"; "category"; "tournament_type"; "options"; "entry_fee";
    "max_participants"; "prize_pool"; "current_participants"; "start_time";
    "end_time"; "status"; "created_at" ].

(** The columns the insert of POST /api/admin/events names (lines 878-881). *)
Definition admin_insert_columns : list string :=
  [ "title"; "description"; "category"; "event_type"; "location"; "options";
    "entry_fee"; "max_participants"; "start_time"; "end_time"; "visibility" ].

(** ** Listing tournaments: GET /api/tournaments (lines 480-590) *)

(** A row of the response: the tournament with its id and category, the
    [expired] flag and [participantCount]. *)
Record listed := mkListed {
  l_id : Z;
  l_category : string;
  l_tournament : tournament;
  l_expired : bool;
  l_participantCount : Z
}.

(** [ListingFailed] is the 500 of the [catch]; [Listing] carries the rows
    sent and the headers X-Total-Count, X-Page and X-Page-Size. *)
Inductive listing_response :=
| ListingFailed
| Listing (rows : list listed) (total : nat) (page pageSize : Z).

Definition VALID_CATEGORIES : list string := ["crypto"; "stocks"; "politics"; "all"].
Definition DEFAULT_PAGE_SIZE : Z := 20.
Definition MAX_PAGE_SIZE : Z := 100.

(** [n || fallback] for a number [n]: NaN ([None]) and 0 are falsy. *)
Definition or_else (n : option Z) (fallback : Z) : Z :=
  match n with
  | Some 0 | None => fallback
  | Some k => k
  end.

Section Listing.
  (** [parseInt] on a query parameter: the integer read, [None] for NaN
      (also when the parameter is absent). *)
  Variable parseInt : option string -> option Z.

(** [catalogue] lists the id and the category of the rows of
    [tournaments] in the order of [ORDER BY created_at DESC]; [db_now] is
    the store's [NOW()].  Options are held decoded.  The store refuses a
    negative LIMIT or OFFSET. *)
Definition get_tournaments (tournaments_table : option table)
    (q_category q_page q_pageSize : option string) (db_now : Z)
    (catalogue : list (Z * string)) (d : db) : listing_response :=
  let category :=
    match q_category with
    | Some c => if bool_decide (c ∈ VALID_CATEGORIES) then c else "all"
    | None => "all"
    end in
  let page := or_else (parseInt q_page) 1 in
  let pageSize := Z.min (or_else (parseInt q_pageSize) DEFAULT_PAGE_SIZE)
                        MAX_PAGE_SIZE in
  let offset := (page - 1) * pageSize in
  if negb (names_only_columns listing_columns tournaments_table)
  then ListingFailed
  else if (pageSize <? 0) || (offset <? 0) then ListingFailed
  else
    let rows :=
      omap (fun entry : Z * string =>
              match tournaments d !! entry.1 with
              | Some t =>
                  if bool_decide ((status t = pending \/ status t = active)
                                  /\ (category = "all" \/ entry.2 = category))
                  then Some (mkListed entry.1 entry.2 t
                               (bool_decide (end_time t < db_now))
                               (Z.of_nat (length (entries entry.1 d))))
                  else None
              | None => None
              end)
           catalogue in
    Listing (take (Z.to_nat pageSize) (drop (Z.to_nat offset) rows))
            (length rows) page pageSize.

End Listing.

(** A table as the SQLite server creates it (lines 1166-1181). *)
Definition legacy_table : table :=
  mkTable (list_to_set [ "id"; "title"; "category"; "tournament_type"; "options";
                         "entry_fee"; "max_participants"; "prize_pool";
                         "current_participants"; "start_time"; "end_time";
                         "status"; "correct_answer"; "created_at" ])
          (list_to_set [ "title"; "category"; "tournament_type"; "options";
                         "entry_fee"; "start_time"; "end_time" ]).

(** ** Events: POST, PUT and DELETE /api/events (lines 770-858) *)

Module Events.

(** A row of [events] (lines 155-165) without its key. *)
Record event := mkEvent {
  title : string;
  description : option string;
  location : string;
  start_time : Z;
  end_time : Z;
  capacity : option Z;
  created_at : Z;
  updated_at : Z
}.

(** The fields of a request body; an absent or null field is [None], and a
    time is the instant a timestamp the store can read stands for. *)
Record fields := mkFields {
  f_title : option string;
  f_description : option string;
  f_location : option string;
  f_start_time : option Z;
  f_end_time : option Z;
  f_capacity : option Z
}.

Record store := mkStore { events : gmap Z event; events_id_seq : Z }.

Inductive body :=
| Row (id : Z) (e : event)
| Deleted
| Failure (error : string).

Record response := mkResponse { status_code : Z; json : body }.

(** What the store refuses of a body when its fields are bound to the
    parameters of a statement: a text with NUL, a capacity out of INTEGER. *)
Definition binds (b : fields) : bool :=
  is_text (default "" (f_title b)) && is_text (default "" (f_description b))
  && is_text (default "" (f_location b))
  && is_int4 (default 0 (f_capacity b)).

(** POST /api/events: the insert names all six columns, so an absent
    field is stored as NULL, and a NULL in a NOT NULL column (title,
    location, start_time, end_time) fails the insert.  A parameter the
    store refuses fails the statement before a key is drawn from the
    sequence; otherwise the key is drawn whether or not the insert goes
    through.  [db_now] is [NOW()]. *)
Definition create (b : fields) (db_now : Z) (s : store) : store * response :=
  let id := events_id_seq s in
  let s1 := mkStore (events s) (id + 1) in
  if negb (binds b) then (s, mkResponse 500 (Failure "Failed to create event"))
  else
    match f_title b, f_location b, f_start_time b, f_end_time b with
    | Some t, Some l, Some st, Some en =>
        match events s !! id with
        | Some _ => (s1, mkResponse 500 (Failure "Failed to create event"))
        | None =>
            let e := mkEvent t (f_description b) l st en (f_capacity b)
                       db_now db_now in
            (mkStore (<[id := e]> (events s)) (id + 1), mkResponse 201 (Row id e))
        end
    | _, _, _, _ => (s1, mkResponse 500 (Failure "Failed to create event"))
    end.

(** [COALESCE($n, column)]. *)
Definition coalesce {A} (new : option A) (old : A) : A := default old new.

(** The same for a nullable column. *)
Definition coalesce_null {A} (new : option A) (old : option A) : option A :=
  match new with
  | Some x => Some x
  | None => old
  end.

(** PUT /api/events/:id: every column keeps its value unless the body
    gives one; [updated_at] is set to [NOW()]. *)
Definition update (id : Z) (b : fields) (db_now : Z) (s : store)
  : store * response :=
  if negb (binds b && is_int4 id)
  then (s, mkResponse 500 (Failure "Failed to update event"))
  else
    match events s !! id with
    | None => (s, mkResponse 404 (Failure "Event not found"))
    | Some e =>
        let e' := mkEvent (coalesce (f_title b) (title e))
                          (coalesce_null (f_description b) (description e))
                          (coalesce (f_location b) (location e))
                          (coalesce (f_start_time b) (start_time e))
                          (coalesce (f_end_time b) (end_time e))
                          (coalesce_null (f_capacity b) (capacity e))
                          (created_at e) db_now in
        (mkStore (<[id := e']> (events s)) (events_id_seq s),
         mkResponse 200 (Row id e'))
    end.

(** DELETE /api/events/:id. *)
Definition remove (id : Z) (s : store) : store * response :=
  if negb (is_int4 id)
  then (s, mkResponse 500 (Failure "Failed to delete event"))
  else
    match events s !! id with
    | None => (s, mkResponse 404 (Failure "Event not found"))
    | Some _ => (mkStore (delete id (events s)) (events_id_seq s),
                 mkResponse 200 Deleted)
    end.

End Events.

(** ** CORS origins (lines 20-37) *)

(** The ASCII characters [String.prototype.trim] removes: TAB, LF, VT, FF,
    CR and space (it also removes non-ASCII white space, which the
    statements below rule out). *)
Definition is_whitespace (c : ascii) : bool :=
  bool_decide (nat_of_ascii c ∈ [9; 10; 11; 12; 13; 32]%nat).

Fixpoint trimStart (s : string) : string :=
  match s with
  | EmptyString => EmptyString
  | String c rest => if is_whitespace c then trimStart rest else s
  end.

Fixpoint trimEnd (s : string) : string :=
  match s with
  | EmptyString => EmptyString
  | String c rest =>
      match trimEnd rest with
      | EmptyString => if is_whitespace c then EmptyString else String c EmptyString
      | kept => String c kept
      end
  end.

Definition trim (s : string) : string := trimEnd (trimStart s).

(** [(process.env.CORS_ORIGIN || '').split(',').map(o => o.trim())
    .filter(Boolean)]. *)
Definition allowedOrigins (CORS_ORIGIN : option string) : list string :=
  filter (fun o => o <> "")
         (trim <$> split "," (if truthy CORS_ORIGIN then default "" CORS_ORIGIN
                              else "")).

(** The [origin] callback: [true] for [callback(null, true)], [false] for
    the CORS error. *)
Definition cors_origin (CORS_ORIGIN origin : option string) : bool :=
  if negb (truthy origin) then true
  else bool_decide (default "" origin ∈ allowedOrigins CORS_ORIGIN).

(** An origin as one writes it in the list: ASCII, not empty, without a
    comma and without white space around it. *)
Definition tidy (o : string) : Prop :=
  o <> "" /\ (","%char ∉ list_ascii_of_string o) /\ trim o = o
  /\ Forall (fun c => (nat_of_ascii c < 128)%nat) (list_ascii_of_string o).

(** ** Seeding the test users: createTestUsers (lines 262-286) *)

Definition testUsers : list (string * string * Z) :=
  [ ("demo@test.com", "DemoUser", 2500);
    ("alice@test.com", "Alice", 1800);
    ("bob@test.com", "Bob", 3200) ].

(** [INSERT INTO users (email, username, points) VALUES ($1, $2, $3)
    ON CONFLICT (email) DO NOTHING]: nothing is inserted when a row has the
    e-mail; the key is drawn from the sequence either way; [None] when the
    insert raises because the key is taken.  The columns the insert does
    not name are NULL or at their defaults. *)
Definition insert_test_user (row : string * string * Z)
    (s : db * gmap Z credential) : option (db * gmap Z credential) :=
  let d := s.1 in
  let id := users_id_seq d in
  let d1 := mkDb (users d) (id + 1) (tournaments d) (participants d) in
  if decide (map_Exists (fun _ u => email u = Some row.1.1) (users d))
  then Some (d1, s.2)
  else if decide (is_Some (users d !! id)) then None
  else Some (set_users (<[id := mkUser (Some row.1.1) row.1.2 row.2 0 0 None]>
                          (users d1)) d1,
             <[id := mkCredential None None]> s.2).

(** The loop over [testUsers]; an insert that raises ends it. *)
Definition createTestUsers (s : db * gmap Z credential)
  : option (db * gmap Z credential) :=
  foldl (fun acc row => acc ≫= insert_test_user row) (Some s) testUsers.

(** * Properties *)

(** ** Tournament entry *)

Lemma select_existing_nil tournamentId userId d :
  select_existing tournamentId userId d = [] <->
  forall q, q ∈ participants d ->
    ~ (tournament_id q = tournamentId /\ user_id q = userId).
Proof.
  unfold select_existing. split.
  - intros Hnil q Hq Hm.
    assert (Hin : q ∈ filter (fun p => tournament_id p = tournamentId
                                       /\ user_id p = userId) (participants d))
      by (apply list_elem_of_filter; auto).
    rewrite Hnil in Hin. by apply not_elem_of_nil in Hin.
  - intros Hall. induction (participants d) as [|q l IH]; [done|].
    rewrite filter_cons. destruct (decide _) as [Hm|_].
    + exfalso. eapply Hall; [left|exact Hm].
    + apply IH. intros q' Hq'. apply Hall. by right.
Qed.

Lemma alter_lookup_insert {A} (f : A -> A) (k : Z) (m : gmap Z A) (x : A) :
  m !! k = Some x -> alter f k m = <[k := f x]> m.
Proof.
  intros H. apply map_eq. intros i. rewrite lookup_alter, lookup_insert.
  destruct (decide (k = i)) as [->|]; [by rewrite H|done].
Qed.

Lemma already_entered_false tournamentId userId d :
  already_entered tournamentId userId d = false <->
  select_existing tournamentId userId d = [].
Proof.
  unfold already_entered. rewrite bool_decide_eq_false, select_existing_nil.
  rewrite Exists_exists. split.
  - intros Hno q Hq Hm. apply Hno. by exists q.
  - intros Hall (q & Hq & Hm). by apply (Hall q).
Qed.

(** Every way an entry can go: it commits the three writes, or it leaves
    the state alone and answers with an error. *)
Lemma enter_cases tournamentId userId prediction d :
  (exists t u, can_enter tournamentId userId t u d
               /\ entry_fits tournamentId userId prediction t u
               /\ enter tournamentId userId prediction d
                  = (entered tournamentId userId prediction t d, entry_ok))
  \/ ((enter tournamentId userId prediction d).1 = d
      /\ (enter tournamentId userId prediction d).2 <> entry_ok).
Proof.
  unfold enter, enter_txn, mbind, txn_bind, integer, query,
    select_tournament_and_user, throw.
  destruct (is_int4 tournamentId) eqn:Ei1; [|by right].
  destruct (is_int4 userId) eqn:Ei2; [|by right].
  destruct (tournaments d !! tournamentId) as [t|] eqn:Et; [|by right].
  destruct (users d !! userId) as [u|] eqn:Eu; [|by right].
  destruct (decide (status t = active)) as [Ha|Ha]; [|by right].
  destruct (points u <? entry_fee t) eqn:E1; [by right|].
  destruct (current_participants t >=? max_participants t) eqn:E2; [by right|].
  destruct (select_existing tournamentId userId d) as [|q qs] eqn:E3; [|by right].
  cbn [length Nat.ltb Nat.leb].
  unfold debit_user, update, debit_fits. rewrite Eu.
  destruct (is_int4 (points u - entry_fee t)) eqn:Ep; [|by right].
  unfold text. destruct (is_text prediction) eqn:Etx; [|by right].
  unfold exec, count_entry, update, count_fits.
  cbn [tournaments insert_participant set_participants debited set_users].
  rewrite Et.
  destruct (is_int4 (current_participants t + 1)) eqn:Ec; [|by right].
  destruct (is_int4 (prize_pool t + entry_fee t)) eqn:Epool; [|by right].
  left. exists t, u. split; [|split; [done|reflexivity]].
  split; try done; try lia. by apply select_existing_nil.
Qed.

Lemma enter_done tournamentId userId prediction t u d :
  can_enter tournamentId userId t u d ->
  entry_fits tournamentId userId prediction t u ->
  enter tournamentId userId prediction d
  = (entered tournamentId userId prediction t d, entry_ok).
Proof.
  intros Hc (Hi1 & Hi2 & Htx & Hp & Hcount & Hpool).
  destruct Hc as [Ht Ha Hu Hf Hr Hn].
  unfold enter, enter_txn, mbind, txn_bind, integer, query,
    select_tournament_and_user.
  rewrite Hi1, Hi2, Ht, Hu. rewrite decide_True by done.
  destruct (points u <? entry_fee t) eqn:E1; [lia|].
  destruct (current_participants t >=? max_participants t) eqn:E2; [lia|].
  apply select_existing_nil in Hn. rewrite Hn.
  cbn [length Nat.ltb Nat.leb].
  unfold debit_user, update, debit_fits. rewrite Hu, Hp.
  unfold text. rewrite Htx.
  unfold exec, count_entry, update, count_fits.
  cbn [tournaments insert_participant set_participants debited set_users].
  by rewrite Ht, Hcount, Hpool.
Qed.

(** The demo scenario: the pair (tournament 1, user 1) of [demo_db] meets
    the preconditions, and the store accepts its values. *)
Lemma demo_can_enter : can_enter 1 1 bitcoin demo_user demo_db.
Proof.
  split; try done.
  intros q Hq. by apply not_elem_of_nil in Hq.
Qed.

Lemma demo_entry_fits prediction :
  is_text prediction = true -> entry_fits 1 1 prediction bitcoin demo_user.
Proof. intros Htx. by repeat split. Qed.

(** C1, as the code has it.  When the tournament exists and is active, the
    user has at least [entry_fee] points, the tournament has room, the pair
    has no participant row, and the store accepts the values of the entry
    (the ids, the new balance, count and pool are within INTEGER and the
    prediction holds no NUL), [enter] answers 200 and commits, together:
    the user's points lowered by exactly [entry_fee] (every other user
    untouched), one new participant row carrying the prediction and the fee
    paid appended to the table, and the tournament's
    [current_participants] raised by 1 and [prize_pool] by [entry_fee]
    (every other tournament untouched). *)
Theorem enter_commits_all_effects
    (tournamentId userId : Z) (prediction : string) (t : tournament) (u : user)
    (d : db) :
  tournaments d !! tournamentId = Some t ->
  status t = active ->
  users d !! userId = Some u ->
  entry_fee t <= points u ->
  current_participants t < max_participants t ->
  (forall q, q ∈ participants d ->
     ~ (tournament_id q = tournamentId /\ user_id q = userId)) ->
  entry_fits tournamentId userId prediction t u ->
  exists d',
    enter tournamentId userId prediction d
    = (d', mkResponse 200 (Success "Successfully entered tournament" None))
    /\ users d' = <[userId := set_points (points u - entry_fee t) u]> (users d)
    /\ participants d'
       = participants d
         ++ [mkParticipant tournamentId userId prediction (entry_fee t)]
    /\ tournaments d'
       = <[tournamentId :=
             set_prize_pool (prize_pool t + entry_fee t)
               (set_current_participants (current_participants t + 1) t)]>
           (tournaments d)
    /\ users_id_seq d' = users_id_seq d.
Proof.
  intros Ht Ha Hu Hf Hr Hn Hfits.
  exists (entered tournamentId userId prediction t d).
  split; [apply (enter_done _ _ _ t u); [by split|done]|].
  unfold entered, counted, insert_participant, debited; simpl.
  repeat split.
  - exact (alter_lookup_insert _ _ _ _ Hu).
  - exact (alter_lookup_insert _ _ _ _ Ht).
Qed.

(** The scenario of the specification: 1000 points, fee 100. *)
Lemma enter_commits_all_effects_demo :
  exists d',
    enter 1 1 "Above $45,000" demo_db
    = (d', mkResponse 200 (Success "Successfully entered tournament" None))
    /\ points <$> users d' !! 1 = Some 900
    /\ prize_pool <$> tournaments d' !! 1 = Some 100
    /\ current_participants <$> tournaments d' !! 1 = Some 1
    /\ participants d' = [mkParticipant 1 1 "Above $45,000" 100].
Proof.
  destruct (enter_commits_all_effects 1 1 "Above $45,000" bitcoin demo_user demo_db)
    as (d' & He & Hu & Hp & Ht & _).
  - reflexivity.
  - reflexivity.
  - reflexivity.
  - simpl. lia.
  - simpl. lia.
  - intros q Hq. by apply not_elem_of_nil in Hq.
  - by repeat split.
  - exists d'. split; [exact He|].
    rewrite Hu, Ht, Hp. repeat split.
Defined.

(** C1 as stated fails.  In [high_stakes_db] the four preconditions hold
    for user 1, yet the prize pool the entry would leave, 3000000000, is no
    INTEGER: the update is refused, the entry rolled back and answered 400
    with the driver's error.  In [demo_db] the preconditions hold too, and
    a prediction with a NUL character is refused by the insert. *)
Lemma enter_refused_by_the_store :
  can_enter 1 1 high_stakes high_roller high_stakes_db
  /\ enter 1 1 "Yes" high_stakes_db
     = (high_stakes_db, mkResponse 400 (DriverFailure numeric_value_out_of_range))
  /\ can_enter 1 1 bitcoin demo_user demo_db
  /\ enter 1 1 (String "000" "Above $45,000") demo_db
     = (demo_db, mkResponse 400 (DriverFailure character_not_in_repertoire)).
Proof.
  split; [|split; [reflexivity|split; [exact demo_can_enter|reflexivity]]].
  split; try done; simpl; try lia.
  intros q Hq. apply list_elem_of_singleton in Hq as ->. simpl. by intros [_ ?].
Qed.

(** C9, as the code has it.  The prediction is never compared with the
    tournament's options: under the four preconditions, when the store
    accepts the values of the entry, the entry succeeds and the row
    appended last records the prediction as given, whatever string without
    NUL it is, and the response is the same for every such string. *)
Theorem enter_accepts_any_prediction
    (tournamentId userId : Z) (prediction : string) (t : tournament) (u : user)
    (d : db) :
  can_enter tournamentId userId t u d ->
  entry_fits tournamentId userId prediction t u ->
  (enter tournamentId userId prediction d).2 = entry_ok
  /\ last (participants (enter tournamentId userId prediction d).1)
     = Some (mkParticipant tournamentId userId prediction (entry_fee t))
  /\ forall other : string,
       is_text other = true ->
       (enter tournamentId userId other d).2
       = (enter tournamentId userId prediction d).2.
Proof.
  intros H Hfits. repeat split.
  - by rewrite (enter_done _ _ _ t u).
  - rewrite (enter_done _ _ _ t u) by done. simpl. apply last_snoc.
  - intros other Hother. rewrite !(enter_done _ _ _ t u); try done.
    unfold entry_fits in *. tauto.
Qed.

(** An empty prediction, which is none of the two options of [bitcoin]. *)
Lemma enter_accepts_any_prediction_demo :
  ("" ∉ options bitcoin)
  /\ (enter 1 1 "" demo_db).2 = entry_ok
  /\ last (participants (enter 1 1 "" demo_db).1)
     = Some (mkParticipant 1 1 "" 100).
Proof.
  split.
  - unfold bitcoin; simpl. rewrite !not_elem_of_cons.
    repeat split; [done|done|apply not_elem_of_nil].
  - destruct (enter_accepts_any_prediction 1 1 "" bitcoin demo_user demo_db
                demo_can_enter (demo_entry_fits "" eq_refl)) as (H1 & H2 & _).
    split; [exact H1|exact H2].
Defined.

(** C9 as stated fails: under the four preconditions a prediction that
    holds a NUL character is refused by the insert, and a prediction
    among the options is refused when the prize pool would leave
    INTEGER. *)
Lemma enter_refuses_some_predictions :
  can_enter 1 1 bitcoin demo_user demo_db
  /\ (enter 1 1 (String "000" "") demo_db).2
     = mkResponse 400 (DriverFailure character_not_in_repertoire)
  /\ can_enter 1 1 high_stakes high_roller high_stakes_db
  /\ ("No" ∈ options high_stakes)
  /\ (enter 1 1 "No" high_stakes_db).2
     = mkResponse 400 (DriverFailure numeric_value_out_of_range).
Proof.
  split; [exact demo_can_enter|]. split; [reflexivity|].
  split; [|split; [|reflexivity]].
  - split; try done; simpl; try lia.
    intros q Hq. apply list_elem_of_singleton in Hq as ->. simpl. by intros [_ ?].
  - unfold high_stakes; simpl. apply elem_of_cons. right. by left.
Qed.

Lemma enter_txn_thrown tournamentId userId prediction u k d :
  is_int4 tournamentId = true ->
  is_int4 userId = true ->
  users d !! userId = Some u ->
  spec_first_violation (tournaments d !! tournamentId) (points u)
    (already_entered tournamentId userId d) = Some k ->
  exists msg,
    enter_txn tournamentId userId prediction d = Thrown msg
    /\ error_response k
       = mkResponse (if includes "not found" msg then 404 else 400)
           (Failure (if decide (msg = "") then "Failed to enter tournament"
                     else msg)).
Proof.
  intros Hi1 Hi2 Hu Hk.
  unfold enter_txn, mbind, txn_bind, integer, query, select_tournament_and_user,
    throw.
  rewrite Hi1, Hi2.
  unfold spec_first_violation in Hk. rewrite Hu.
  destruct (tournaments d !! tournamentId) as [t|].
  2:{ simplify_eq. eexists; split; [reflexivity|reflexivity]. }
  destruct (decide (status t = active)).
  2:{ simplify_eq. eexists; split; [reflexivity|reflexivity]. }
  destruct (decide (entry_fee t <= points u)).
  2:{ simplify_eq. destruct (points u <? entry_fee t) eqn:E; [|lia].
      eexists; split; [reflexivity|reflexivity]. }
  destruct (points u <? entry_fee t) eqn:E1; [lia|].
  destruct (decide (current_participants t < max_participants t)).
  2:{ simplify_eq.
      destruct (current_participants t >=? max_participants t) eqn:E; [|lia].
      eexists; split; [reflexivity|reflexivity]. }
  destruct (current_participants t >=? max_participants t) eqn:E2; [lia|].
  destruct (already_entered tournamentId userId d) eqn:E3; [|done].
  simplify_eq.
  destruct (select_existing tournamentId userId d) as [|q qs] eqn:E4.
  { apply already_entered_false in E4. congruence. }
  eexists; split; [reflexivity|reflexivity].
Qed.

Lemma enter_fails tournamentId userId prediction u k d :
  is_int4 tournamentId = true ->
  is_int4 userId = true ->
  users d !! userId = Some u ->
  spec_first_violation (tournaments d !! tournamentId) (points u)
    (already_entered tournamentId userId d) = Some k ->
  enter tournamentId userId prediction d = (d, error_response k).
Proof.
  intros Hi1 Hi2 Hu Hk.
  destruct (enter_txn_thrown _ _ prediction _ _ _ Hi1 Hi2 Hu Hk)
    as (msg & He & Hr).
  unfold enter. by rewrite He, Hr.
Qed.

(** C2, as the code has it.  For a call with ids within INTEGER by a user
    that has a row, which violates a precondition, [enter] answers with the
    error of the first violated one in the checked order and leaves the
    state as it was.  A missing tournament and a tournament that is not
    active share one error; that error and those of insufficient funds, a
    full tournament and an earlier entry are pairwise distinct. *)
Theorem enter_reports_first_violation
    (tournamentId userId : Z) (prediction : string) (u : user) (k : error_kind)
    (d : db) :
  is_int4 tournamentId = true ->
  is_int4 userId = true ->
  users d !! userId = Some u ->
  spec_first_violation (tournaments d !! tournamentId) (points u)
    (already_entered tournamentId userId d) = Some k ->
  enter tournamentId userId prediction d = (d, error_response k)
  /\ forall k', error_response k' = error_response k ->
       k' = k \/ (k' ∈ [NotFound; NotActive] /\ k ∈ [NotFound; NotActive]).
Proof.
  intros Hi1 Hi2 Hu Hk. split.
  - by apply (enter_fails _ _ _ u).
  - intros k' Heq. destruct k, k'; simpl in Heq; try discriminate Heq;
      first [by left | right; split; set_solver].
Qed.

(** A second entry by the same user: 'Already participated', state unchanged. *)
Lemma enter_reports_first_violation_demo :
  let d := (enter 1 1 "Above $45,000" demo_db).1 in
  users d !! 1 = Some (set_points 900 demo_user)
  /\ enter 1 1 "Below $45,000" d
     = (d, mkResponse 400 (Failure "Already participated")).
Proof.
  split; [reflexivity|].
  refine (proj1 (enter_reports_first_violation 1 1 "Below $45,000"
                   (set_points 900 demo_user) AlreadyEntered _ _ _ _ _)).
  - reflexivity.
  - reflexivity.
  - reflexivity.
  - reflexivity.
Defined.

(** C2 as stated fails, in three ways.  A call on an id with no tournament
    (first violated precondition: existence) and a call on a tournament
    that is still pending (first violated precondition: active status) get
    the same response, so the two kinds are not told apart.  A call on an
    id that is no INTEGER, which no tournament has, is answered with the
    driver's error, which is the response of no kind.  And a call by a user
    id without a row on a tournament that exists, is active and is full is
    answered with the error of a missing or inactive tournament, the one
    precondition that holds. *)
Lemma enter_first_violation_not_reported :
  (spec_first_violation (tournaments demo_db !! 2) (points demo_user)
     (already_entered 2 1 demo_db) = Some NotFound
   /\ spec_first_violation (tournaments pending_db !! 1) (points demo_user)
        (already_entered 1 1 pending_db) = Some NotActive
   /\ (enter 2 1 "Above $45,000" demo_db).2
      = (enter 1 1 "Above $45,000" pending_db).2)
  /\ (spec_first_violation (tournaments demo_db !! 2147483648) (points demo_user)
        (already_entered 2147483648 1 demo_db) = Some NotFound
      /\ (enter 2147483648 1 "Above $45,000" demo_db).2
         = mkResponse 400 (DriverFailure numeric_value_out_of_range)
      /\ forall k, error_response k
                   <> mkResponse 400 (DriverFailure numeric_value_out_of_range))
  /\ (users full_db !! 7 = None
      /\ tournaments full_db !! 1 = Some (set_current_participants 50 bitcoin)
      /\ status (set_current_participants 50 bitcoin) = active
      /\ max_participants (set_current_participants 50 bitcoin)
         <= current_participants (set_current_participants 50 bitcoin)
      /\ (enter 1 7 "Above $45,000" full_db).2 = error_response NotFound).
Proof.
  split; [by repeat split|]. split; [|by repeat split].
  split; [reflexivity|]. split; [reflexivity|]. by intros [].
Qed.

(** ** Free claim *)

(** Every way a claim by a user with a row can go. *)
Lemma claim_cases userId now db_now u d :
  is_int4 userId = true ->
  users d !! userId = Some u ->
  (forall lastClaim, last_claim_date u = Some lastClaim ->
     Z.abs (now - lastClaim) < 24 * 3600000 ->
     claim_free_points userId now db_now d
     = (d, mkResponse 429 (CooldownActive (lastClaim + 24 * 3600000))))
  /\ (~ cooling now u -> is_int4 (points u + 500) = true ->
      claim_free_points userId now db_now d
      = (awarded userId db_now d,
         mkResponse 200 (PointsAwarded 500 (now + 24 * 3600000))))
  /\ (~ cooling now u -> is_int4 (points u + 500) = false ->
      claim_free_points userId now db_now d
      = (d, mkResponse 500 (Failure "Failed to claim points"))).
Proof.
  intros Hi Hu.
  unfold claim_free_points, claim_free_points_try, mbind, txn_bind, integer,
    query, award_claim, update, award_fits, mret, txn_ret, cooling.
  rewrite Hi. cbv beta iota zeta. rewrite Hu.
  unfold cooldownHours, ms_per_hour, pointsToAdd.
  destruct (last_claim_date u) as [lastClaim|] eqn:El.
  - destruct (Z.abs (now - lastClaim) <? 24 * 3600000) eqn:E;
      cbv beta iota; rewrite ?Hu.
    + split; [|split].
      * intros l [= <-] _. repeat f_equal; lia.
      * intros Hn. exfalso. apply Hn. exists lastClaim. split; [done|lia].
      * intros Hn. exfalso. apply Hn. exists lastClaim. split; [done|lia].
    + split; [|split].
      * intros l [= <-] Hlt. lia.
      * intros _ ->. repeat f_equal; lia.
      * by intros _ ->.
  - cbv beta iota; rewrite ?Hu. split; [done|]. split.
    + intros _ ->. repeat f_equal; lia.
    + by intros _ ->.
Qed.

Lemma awarded_insert userId db_now u d :
  users d !! userId = Some u ->
  awarded userId db_now d
  = mkDb (<[userId := set_last_claim_date (Some db_now)
                        (set_points (points u + 500) u)]> (users d))
         (users_id_seq d) (tournaments d) (participants d).
Proof.
  intros Hu. unfold awarded, set_users. f_equal.
  exact (alter_lookup_insert _ _ _ _ Hu).
Qed.

(** C8, as the code has it.  For a user with a row, an id within INTEGER
    and no claim date 24 hours or more ahead of the current time,
    [claim_free_points] answers 429 exactly when a claim date is on record
    and fewer than 24 hours have elapsed since it; it then names the
    instant the wait ends and leaves the state as it was.  Otherwise, when
    the new balance is within INTEGER, it answers 200, adds 500 to that
    user's points, stamps [last_claim_date] with the store's current time,
    and touches nothing else. *)
Theorem claim_free_points_cooldown
    (userId now db_now : Z) (u : user) (d : db) :
  is_int4 userId = true ->
  users d !! userId = Some u ->
  (forall lastClaim, last_claim_date u = Some lastClaim ->
     lastClaim - now < 24 * 3600000) ->
  let r := claim_free_points userId now db_now d in
  (status_code r.2 = 429 <-> spec_cooling now u)
  /\ (spec_cooling now u ->
      exists lastClaim,
        last_claim_date u = Some lastClaim
        /\ r = (d, mkResponse 429 (CooldownActive (lastClaim + 24 * 3600000))))
  /\ (~ spec_cooling now u ->
      is_int4 (points u + 500) = true ->
      r = (mkDb (<[userId := set_last_claim_date (Some db_now)
                               (set_points (points u + 500) u)]> (users d))
                (users_id_seq d) (tournaments d) (participants d),
           mkResponse 200 (PointsAwarded 500 (now + 24 * 3600000)))).
Proof.
  intros Hi Hu Hnear r. subst r.
  destruct (claim_cases userId now db_now u d Hi Hu) as (Hwait & Hgrant & Hfull).
  assert (Hiff : cooling now u <-> spec_cooling now u).
  { unfold cooling, spec_cooling, cooldownHours, ms_per_hour. split.
    - intros (l & Hl & Hlt). exists l. split; [done|lia].
    - intros (l & Hl & Hlt). exists l. split; [done|].
      specialize (Hnear l Hl). lia. }
  split; [|split].
  - split.
    + intros H429. apply Hiff.
      destruct (last_claim_date u) as [l|] eqn:El.
      * destruct (decide (Z.abs (now - l) < 24 * 3600000)) as [Hlt|Hge].
        { exists l. split; [done|]. unfold cooldownHours, ms_per_hour. lia. }
        exfalso.
        assert (Hn : ~ cooling now u).
        { intros (l' & Hl' & Hlt'). unfold cooldownHours, ms_per_hour in Hlt'.
          simplify_eq. lia. }
        destruct (is_int4 (points u + 500)) eqn:Ef.
        -- by rewrite (Hgrant Hn eq_refl) in H429.
        -- by rewrite (Hfull Hn eq_refl) in H429.
      * exfalso.
        assert (Hn : ~ cooling now u) by (intros (l' & Hl' & _); congruence).
        destruct (is_int4 (points u + 500)) eqn:Ef.
        -- by rewrite (Hgrant Hn eq_refl) in H429.
        -- by rewrite (Hfull Hn eq_refl) in H429.
    + intros (l & Hl & Hlt)%Hiff. unfold cooldownHours, ms_per_hour in Hlt.
      by rewrite (Hwait l Hl Hlt).
  - intros (l & Hl & Hlt)%Hiff. unfold cooldownHours, ms_per_hour in Hlt.
    exists l. split; [done|]. by apply Hwait.
  - intros Hn Hfit. rewrite Hgrant; [|by rewrite Hiff|done].
    by rewrite (awarded_insert _ _ u).
Qed.

(** A second claim 999 ms after the first: 429, points unchanged. *)
Lemma claim_free_points_cooldown_demo :
  users claimed_db !! 1 = Some claimed_user
  /\ (status_code (claim_free_points 1 2000 2001 claimed_db).2 = 429
      <-> spec_cooling 2000 claimed_user)
  /\ (claim_free_points 1 2000 2001 claimed_db).1 = claimed_db.
Proof.
  split; [reflexivity|].
  destruct (claim_free_points_cooldown 1 2000 2001 claimed_user claimed_db
              eq_refl eq_refl) as (Hiff & _ & _).
  - intros l [= <-]. lia.
  - split; [exact Hiff|reflexivity].
Defined.

(** C8 as stated fails: [capped_user] has no claim on record, so no
    cooldown is active, yet the claim credits nothing.  The balance it
    would leave is no INTEGER: the update is refused and the handler answers
    500. *)
Lemma claim_free_points_at_the_integer_limit :
  users capped_db !! 1 = Some capped_user
  /\ ~ spec_cooling 0 capped_user
  /\ claim_free_points 1 0 5 capped_db
     = (capped_db, mkResponse 500 (Failure "Failed to claim points")).
Proof.
  split; [reflexivity|]. split; [|reflexivity].
  by intros (l & Hl & _).
Qed.

(** ** Settlement *)

Lemma select_winners_join tournamentId answer d :
  select_winners tournamentId answer d
  = match tournaments d !! tournamentId with
    | Some t => (fun p => (user_id p, prize_pool t)) <$> winning tournamentId answer d
    | None => []
    end.
Proof.
  unfold select_winners, winning.
  induction (participants d) as [|p ps IH]; simpl.
  { by destruct (tournaments d !! tournamentId). }
  rewrite filter_cons.
  destruct (decide (tournament_id p = tournamentId /\ prediction p = answer))
    as [[Hid Hp]|Hno].
  - rewrite Hid in *. destruct (tournaments d !! tournamentId) as [t|] eqn:Et.
    + simpl. f_equal. exact IH.
    + exact IH.
  - destruct (tournaments d !! tournament_id p) as [t|]; exact IH.
Qed.

Lemma credit_times_0 prize u : credit_times prize 0 u = u.
Proof.
  destruct u. unfold credit_times, set_won_tournaments, set_points; simpl.
  f_equal; lia.
Qed.

Lemma credit_times_S prize n u :
  credit_times prize n
    (set_won_tournaments (won_tournaments u + 1) (set_points (points u + prize) u))
  = credit_times prize (S n) u.
Proof.
  destruct u. unfold credit_times, set_won_tournaments, set_points; simpl.
  f_equal; lia.
Qed.

Lemma pay_cons prize pool p W d :
  pay prize pool (p :: W) d = pay prize pool W (credited prize (user_id p) d).
Proof. reflexivity. Qed.

Lemma pay_frame prize pool W d :
  tournaments (pay prize pool W d) = tournaments d
  /\ participants (pay prize pool W d) = participants d
  /\ users_id_seq (pay prize pool W d) = users_id_seq d.
Proof.
  revert d. induction W as [|p W IH]; intros d; [done|].
  rewrite pay_cons.
  destruct (IH (credited prize (user_id p) d)) as (-> & -> & ->).
  done.
Qed.

Lemma pay_users prize pool W d userId :
  users (pay prize pool W d) !! userId
  = credit_times prize (wins userId W) <$> users d !! userId.
Proof.
  unfold wins. revert d. induction W as [|p W IH]; intros d.
  - unfold pay; simpl. destruct (users d !! userId) as [u|]; [|done].
    simpl. by rewrite credit_times_0.
  - rewrite pay_cons, IH. unfold credited at 1; simpl.
    rewrite lookup_alter, filter_cons.
    destruct (decide (user_id p = userId)) as [->|Hne]; [|done].
    destruct (users d !! userId) as [u|]; [|done].
    simpl. by rewrite credit_times_S.
Qed.

Lemma is_int4_spec z : is_int4 z = true <-> -2147483648 <= z <= 2147483647.
Proof. unfold is_int4. rewrite andb_true_iff, !Z.leb_le. tauto. Qed.

Lemma wins_cons userId p W :
  wins userId (p :: W)
  = if decide (user_id p = userId) then S (wins userId W) else wins userId W.
Proof. unfold wins. rewrite filter_cons. by destruct (decide _). Qed.

Lemma wins_le userId W : (wins userId W <= length W)%nat.
Proof. unfold wins. apply length_filter. Qed.

Lemma credits_fit_tail prize p W d :
  credits_fit prize (p :: W) d -> credits_fit prize W (credited prize (user_id p) d).
Proof.
  intros Hfit userId row n Hrow Hn. unfold credited in Hrow; simpl in Hrow.
  rewrite lookup_alter in Hrow.
  destruct (decide (user_id p = userId)) as [<-|Hne].
  - destruct (users d !! user_id p) as [u|] eqn:Eu; [|discriminate Hrow].
    simpl in Hrow. injection Hrow as <-. simpl.
    destruct (Hfit (user_id p) u (S n) Eu) as [Hp Hw].
    { rewrite wins_cons, decide_True by done. lia. }
    split.
    + replace (points u + prize + Z.of_nat n * prize)
        with (points u + Z.of_nat (S n) * prize) by lia. done.
    + replace (won_tournaments u + 1 + Z.of_nat n)
        with (won_tournaments u + Z.of_nat (S n)) by lia. done.
  - apply (Hfit userId row n Hrow). by rewrite wins_cons, decide_False by done.
Qed.

(** The loop of credits goes through when every value it computes fits. *)
Lemma for_each_credit prize pool W d :
  credits_fit prize W d ->
  for_each (fun w : Z * Z => credit_winner prize w.1)
           ((fun p => (user_id p, pool)) <$> W) d
  = Done tt (pay prize pool W d).
Proof.
  revert d. induction W as [|p W IH]; intros d Hfit; [done|].
  rewrite fmap_cons, pay_cons. cbn [for_each]. unfold mbind, txn_bind.
  unfold credit_winner at 1, update, credit_fits. cbn [fst].
  assert (Hok : match users d !! user_id p with
                | Some u => is_int4 (points u + prize)
                            && is_int4 (won_tournaments u + 1)
                | None => true
                end = true).
  { destruct (users d !! user_id p) as [u|] eqn:Eu; [|done].
    destruct (Hfit (user_id p) u 1%nat Eu) as [Hp Hw].
    { rewrite wins_cons, decide_True by done. lia. }
    replace (points u + Z.of_nat 1 * prize) with (points u + prize) in Hp by lia.
    change (Z.of_nat 1) with 1 in Hw. by rewrite Hp, Hw. }
  rewrite Hok. apply IH. by apply credits_fit_tail.
Qed.

(** Whatever the values, the loop either completes or is refused. *)
Lemma for_each_credit_cases prize pool W d :
  for_each (fun w : Z * Z => credit_winner prize w.1)
           ((fun p => (user_id p, pool)) <$> W) d
  = Done tt (pay prize pool W d)
  \/ for_each (fun w : Z * Z => credit_winner prize w.1)
              ((fun p => (user_id p, pool)) <$> W) d
     = Raised numeric_value_out_of_range.
Proof.
  revert d. induction W as [|p W IH]; intros d; [by left|].
  rewrite fmap_cons, pay_cons. cbn [for_each]. unfold mbind, txn_bind.
  unfold credit_winner at 1 3, update. cbn [fst].
  destruct (credit_fits prize (user_id p) d); [apply IH|by right].
Qed.

Lemma mark_resolved_lookup tournamentId answer d :
  tournaments (mark_resolved tournamentId answer d) !! tournamentId
  = (fun t => set_correct_answer (Some answer) (set_status resolved t))
      <$> tournaments d !! tournamentId.
Proof. unfold mark_resolved; simpl. rewrite lookup_alter. by rewrite decide_True. Qed.

(** The transaction once the store has accepted the answer and the id:
    the update, then the loop over the winners. *)
Lemma resolve_txn_unfold tournamentId answer d :
  is_text answer = true ->
  is_int4 tournamentId = true ->
  resolve_txn tournamentId answer d
  = match tournaments d !! tournamentId, winning tournamentId answer d with
    | Some t, (_ :: _) as W =>
        let prize := prize_pool t / Z.of_nat (length W) in
        match for_each (fun w : Z * Z => credit_winner prize w.1)
                       ((fun p => (user_id p, prize_pool t)) <$> W)
                       (mark_resolved tournamentId answer d) with
        | Done _ d' => Done (Some (length W, prize)) d'
        | Thrown msg => Thrown msg
        | Raised e => Raised e
        end
    | _, _ => Done None (mark_resolved tournamentId answer d)
    end.
Proof.
  intros Htx Hid.
  unfold resolve_txn, mbind, txn_bind, text, integer, exec at 1, query.
  rewrite Htx, Hid, select_winners_join.
  assert (HW : winning tournamentId answer (mark_resolved tournamentId answer d)
               = winning tournamentId answer d) by done.
  rewrite HW, mark_resolved_lookup.
  destruct (tournaments d !! tournamentId) as [t|];
    [|by destruct (winning tournamentId answer d)].
  cbn [fmap option_fmap option_map set_correct_answer set_status prize_pool].
  destruct (winning tournamentId answer d) as [|p W]; [done|].
  rewrite fmap_cons. cbn beta iota zeta.
  rewrite !length_cons, !length_fmap. reflexivity.
Qed.

(** What [resolve] does once the store has accepted the answer and the
    id. *)
Lemma resolve_accepted tournamentId answer d :
  is_text answer = true ->
  is_int4 tournamentId = true ->
  match tournaments d !! tournamentId, winning tournamentId answer d with
  | Some t, (_ :: _) as W =>
      let prize := prize_pool t / Z.of_nat (length W) in
      let paid_out :=
        (pay prize (prize_pool t) W (mark_resolved tournamentId answer d),
         mkResponse 200 (Success (resolved_msg (length W)) (Some prize))) in
      (credits_fit prize W d -> resolve tournamentId answer d = paid_out)
      /\ (resolve tournamentId answer d = paid_out
          \/ resolve tournamentId answer d
             = (d, mkResponse 500 (Failure "Failed to resolve tournament")))
  | _, _ =>
      resolve tournamentId answer d
      = (mark_resolved tournamentId answer d,
         mkResponse 200 (Success "Tournament resolved, no winners" None))
  end.
Proof.
  intros Htx Hid. unfold resolve. rewrite (resolve_txn_unfold _ _ _ Htx Hid).
  destruct (tournaments d !! tournamentId) as [t|];
    [|by destruct (winning tournamentId answer d)].
  destruct (winning tournamentId answer d) as [|p W]; [done|].
  cbv zeta. split.
  - intros Hfit.
    by rewrite (for_each_credit _ (prize_pool t) (p :: W)
                  (mark_resolved tournamentId answer d) Hfit).
  - destruct (for_each_credit_cases (prize_pool t / Z.of_nat (length (p :: W)))
                (prize_pool t) (p :: W) (mark_resolved tournamentId answer d))
      as [-> | ->]; [by left|by right].
Qed.

(** What [resolve] does when the store refuses the answer or the id. *)
Lemma resolve_refused tournamentId answer d :
  is_text answer && is_int4 tournamentId = false ->
  resolve tournamentId answer d
  = (d, mkResponse 500 (Failure "Failed to resolve tournament")).
Proof.
  intros Hno. unfold resolve, resolve_txn, mbind, txn_bind, text, integer.
  destruct (is_text answer); [|done].
  by destruct (is_int4 tournamentId).
Qed.

Lemma mark_resolved_unknown tournamentId answer d :
  tournaments d !! tournamentId = None ->
  mark_resolved tournamentId answer d = d.
Proof.
  intros Hn. unfold mark_resolved, set_tournaments.
  rewrite alter_id by (intros t Ht; congruence). by destruct d.
Qed.

Lemma mark_resolved_other tournamentId answer d i :
  i <> tournamentId ->
  tournaments (mark_resolved tournamentId answer d) !! i = tournaments d !! i.
Proof.
  intros Hne. unfold mark_resolved; simpl. rewrite lookup_alter.
  by rewrite decide_False by done.
Qed.

(** C3, as the code has it.  When the store accepts the call (the id is
    within INTEGER, the answer holds no NUL, and every balance and count of
    won tournaments that the credits pass through is within INTEGER),
    [resolve] marks the tournament resolved and records the answer; its
    other columns, the participant rows and every other tournament stay as
    they were.  With [W] the participant rows of the tournament whose
    prediction equals the answer: if [W] is empty (or the tournament row is
    missing) no user row changes; otherwise, with
    [prize = prize_pool / |W|] rounded down, each user row gains [prize]
    points and one won tournament per row of [W] that belongs to the user
    (a user with one winning row gains exactly [prize] and one won
    tournament, a user with none is untouched), the response reports
    [prize], and the [|W|] credits add up to the prize pool less
    [prize_pool mod |W|], which nobody receives. *)
Theorem resolve_pays_floor_share (tournamentId : Z) (answer : string) (d : db) :
  is_int4 tournamentId = true ->
  is_text answer = true ->
  (forall t, tournaments d !! tournamentId = Some t ->
     credits_fit
       (prize_pool t / Z.of_nat (length (winning tournamentId answer d)))
       (winning tournamentId answer d) d) ->
  let W := winning tournamentId answer d in
  let d' := (resolve tournamentId answer d).1 in
  (forall t, tournaments d !! tournamentId = Some t ->
     exists t',
       tournaments d' !! tournamentId = Some t'
       /\ status t' = resolved /\ correct_answer t' = Some answer
       /\ options t' = options t /\ entry_fee t' = entry_fee t
       /\ max_participants t' = max_participants t
       /\ prize_pool t' = prize_pool t
       /\ current_participants t' = current_participants t
       /\ start_time t' = start_time t /\ end_time t' = end_time t)
  /\ (forall i, i <> tournamentId -> tournaments d' !! i = tournaments d !! i)
  /\ participants d' = participants d
  /\ (W = [] \/ tournaments d !! tournamentId = None ->
      users d' = users d
      /\ (resolve tournamentId answer d).2
         = mkResponse 200 (Success "Tournament resolved, no winners" None))
  /\ (forall t, tournaments d !! tournamentId = Some t -> W <> [] ->
      let prize := prize_pool t / Z.of_nat (length W) in
      (forall userId,
         users d' !! userId
         = credit_times prize (wins userId W) <$> users d !! userId)
      /\ (forall userId u, users d !! userId = Some u -> wins userId W = 1%nat ->
          exists u', users d' !! userId = Some u'
                     /\ points u' = points u + prize
                     /\ won_tournaments u' = won_tournaments u + 1)
      /\ (resolve tournamentId answer d).2
         = mkResponse 200 (Success (resolved_msg (length W)) (Some prize))
      /\ Z.of_nat (length W) * prize
         = prize_pool t - prize_pool t mod Z.of_nat (length W)).
Proof.
  intros Hid Htx Hfit W d'. subst W d'.
  pose proof (resolve_accepted tournamentId answer d Htx Hid) as H.
  pose proof (mark_resolved_lookup tournamentId answer d) as Hl.
  destruct (tournaments d !! tournamentId) as [t|] eqn:Et.
  - destruct (winning tournamentId answer d) as [|p W] eqn:EW.
    + rewrite H. cbn [fst snd]. split; [|split; [|split; [|split]]].
      * intros t' [= <-]. rewrite Hl. eexists. split; [reflexivity|]. by repeat split.
      * intros i Hne. by apply mark_resolved_other.
      * done.
      * done.
      * done.
    + destruct H as [H _]. rewrite (H (Hfit t eq_refl)). cbv zeta. cbn [fst snd].
      destruct (pay_frame (prize_pool t / Z.of_nat (length (p :: W))) (prize_pool t)
                  (p :: W) (mark_resolved tournamentId answer d)) as (Ht & Hp & _).
      split; [|split; [|split; [|split]]].
      * intros t' [= <-]. rewrite Ht, Hl. eexists. split; [reflexivity|].
        by repeat split.
      * intros i Hne. rewrite Ht. by apply mark_resolved_other.
      * by rewrite Hp.
      * intros [Hnil|Hnone]; congruence.
      * intros t' [= <-] _. split; [|split; [|split]].
        -- intros userId. by rewrite pay_users.
        -- intros userId u Hu Hone. rewrite pay_users.
           change (users (mark_resolved tournamentId answer d)) with (users d).
           rewrite Hu, Hone. eexists. split; [reflexivity|]. simpl. lia.
        -- reflexivity.
        -- pose proof (Z.div_mod (prize_pool t) (Z.of_nat (length (p :: W)))) as Hdm.
           rewrite length_cons in *. lia.
  - assert (H' : resolve tournamentId answer d
                 = (mark_resolved tournamentId answer d,
                    mkResponse 200 (Success "Tournament resolved, no winners" None)))
      by (by destruct (winning tournamentId answer d)).
    rewrite H'. cbn [fst snd]. split; [done|]. split; [|by repeat split].
    intros i Hne. by apply mark_resolved_other.
Qed.

Lemma credits_fit_room prize W d :
  0 <= prize ->
  map_Forall (fun _ u =>
                0 <= points u
                /\ points u + Z.of_nat (length W) * prize <= 2147483647
                /\ 0 <= won_tournaments u
                /\ won_tournaments u + Z.of_nat (length W) <= 2147483647)
             (users d) ->
  credits_fit prize W d.
Proof.
  intros Hprize Hroom userId u n Hu Hn.
  destruct (Hroom _ _ Hu) as (Hp0 & Hp1 & Hw0 & Hw1).
  pose proof (wins_le userId W) as Hle.
  rewrite !is_int4_spec. split; [nia|lia].
Qed.

Lemma three_way_db_fits : credits_fit 33 (winning 1 "Above $45,000" three_way_db) three_way_db.
Proof.
  apply credits_fit_room; [lia|].
  intros i u Hu. unfold three_way_db in Hu; simpl in Hu.
  repeat (apply lookup_insert_Some in Hu as [[_ <-]|[_ Hu]];
          [vm_compute; repeat split; discriminate|]).
  apply lookup_singleton_Some in Hu as [_ <-].
  vm_compute; repeat split; discriminate.
Qed.

(** The scenario of the specification: a pool of 100 and three winners. *)
Lemma resolve_pays_floor_share_demo :
  let r := resolve 1 "Above $45,000" three_way_db in
  r.2 = mkResponse 200 (Success "Tournament resolved with 3 winners" (Some 33))
  /\ (forall userId,
        users r.1 !! userId
        = credit_times 33 (wins userId (winning 1 "Above $45,000" three_way_db))
            <$> users three_way_db !! userId)
  /\ 3 * 33 = 100 - 100 mod 3.
Proof.
  destruct (resolve_pays_floor_share 1 "Above $45,000" three_way_db eq_refl eq_refl)
    as (_ & _ & _ & _ & Hpay).
  - intros t [= <-]. exact three_way_db_fits.
  - destruct (Hpay (set_prize_pool 100 (set_status closed bitcoin)) eq_refl)
      as (Hall & _ & Hresp & Hsum); [discriminate|].
    split; [exact Hresp|]. split; [exact Hall|exact Hsum].
Defined.

(** C3 as stated fails.  The only entrant of the tournament of [capped_db]
    predicted the answer, yet the call credits nobody and the tournament is
    not resolved: the balance the credit would leave is no INTEGER, and the
    handler rolls back and answers 500.  And an answer that holds a NUL
    character is refused by the first update, so the tournament of
    [demo_db] is not resolved either. *)
Lemma resolve_refused_by_the_store :
  (length (winning 1 "Above $45,000" capped_db) = 1%nat
   /\ resolve 1 "Above $45,000" capped_db
      = (capped_db, mkResponse 500 (Failure "Failed to resolve tournament"))
   /\ status <$> tournaments capped_db !! 1 = Some closed
   /\ points <$> users capped_db !! 1 = Some 2147483647)
  /\ (resolve 1 (String "000" "") demo_db
      = (demo_db, mkResponse 500 (Failure "Failed to resolve tournament"))
      /\ status <$> tournaments demo_db !! 1 = Some active).
Proof. by repeat split. Qed.

(** C10, as the code has it.  [resolve] has no existence check and no
    status check.  For an id within INTEGER and an answer without NUL, when
    the id has no tournament row, or has one, in whatever status, with no
    participant row that predicted the answer, it answers 200 'Tournament
    resolved, no winners' and credits nobody; without a tournament row it
    leaves the whole state as it was, and with one the tournament ends up
    resolved with the answer recorded. *)
Theorem resolve_has_no_guard (tournamentId : Z) (answer : string) (d : db) :
  is_int4 tournamentId = true ->
  is_text answer = true ->
  tournaments d !! tournamentId = None \/ winning tournamentId answer d = [] ->
  let r := resolve tournamentId answer d in
  r.2 = mkResponse 200 (Success "Tournament resolved, no winners" None)
  /\ users r.1 = users d
  /\ participants r.1 = participants d
  /\ (tournaments d !! tournamentId = None -> r.1 = d)
  /\ (forall t, tournaments d !! tournamentId = Some t ->
      exists t', tournaments r.1 !! tournamentId = Some t'
                 /\ status t' = resolved /\ correct_answer t' = Some answer).
Proof.
  intros Hid Htx Hcase r. subst r.
  pose proof (resolve_accepted tournamentId answer d Htx Hid) as H.
  pose proof (mark_resolved_lookup tournamentId answer d) as Hl.
  assert (H' : resolve tournamentId answer d
               = (mark_resolved tournamentId answer d,
                  mkResponse 200 (Success "Tournament resolved, no winners" None))).
  { destruct (tournaments d !! tournamentId) as [t|] eqn:Et.
    - destruct Hcase as [Hnone|Hnil]; [done|]. by rewrite Hnil in H.
    - by destruct (winning tournamentId answer d). }
  rewrite H'. cbn [fst snd]. repeat split.
  - intros Hnone. by apply mark_resolved_unknown.
  - intros t Ht. rewrite Hl, Ht. by eexists.
Qed.

(** An id without a tournament, and a pending tournament nobody entered. *)
Lemma resolve_has_no_guard_demo :
  resolve 2 "Above $45,000" demo_db
  = (demo_db, mkResponse 200 (Success "Tournament resolved, no winners" None))
  /\ (resolve 1 "Above $45,000" pending_db).2
     = mkResponse 200 (Success "Tournament resolved, no winners" None)
  /\ status <$> tournaments (resolve 1 "Above $45,000" pending_db).1 !! 1
     = Some resolved.
Proof.
  destruct (resolve_has_no_guard 2 "Above $45,000" demo_db eq_refl eq_refl
              (or_introl eq_refl)) as (Hr & _ & _ & Hsame & _).
  destruct (resolve_has_no_guard 1 "Above $45,000" pending_db eq_refl eq_refl
              (or_intror eq_refl)) as (Hr' & _ & _ & _ & Hres).
  split; [|split; [exact Hr'|]].
  - rewrite (surjective_pairing (resolve 2 "Above $45,000" demo_db)).
    by rewrite Hr, (Hsame eq_refl).
  - destruct (Hres _ eq_refl) as (t' & Hl' & Hs & _). rewrite Hl'. simpl.
    by rewrite Hs.
Defined.

(** C10 as stated fails, in three ways.  An id that is no INTEGER matches no
    tournament, and an answer that holds a NUL character is no text of the
    store: the first update is refused and the handler answers 500.  And
    the closed tournament of [three_way_db] has three rows that predicted
    the answer: the call credits their users and reports three winners. *)
Lemma resolve_fails_or_pays :
  (tournaments demo_db !! 2147483648 = None
   /\ resolve 2147483648 "Above $45,000" demo_db
      = (demo_db, mkResponse 500 (Failure "Failed to resolve tournament")))
  /\ (tournaments demo_db !! 2 = None
      /\ resolve 2 (String "000" "") demo_db
         = (demo_db, mkResponse 500 (Failure "Failed to resolve tournament")))
  /\ (status <$> tournaments three_way_db !! 1 = Some closed
      /\ (resolve 1 "Above $45,000" three_way_db).2
         = mkResponse 200 (Success "Tournament resolved with 3 winners" (Some 33))
      /\ points <$> users (resolve 1 "Above $45,000" three_way_db).1 !! 1
         = Some 1033).
Proof. repeat split; by vm_compute. Qed.

Example resolve_three_winners :
  let r := resolve 1 "Above $45,000" three_way_db in
  r.2 = mkResponse 200 (Success "Tournament resolved with 3 winners" (Some 33))
  /\ (fun u => (points u, won_tournaments u)) <$> users r.1
     = {[ 1 := (1033, 1); 2 := (1033, 1); 3 := (1033, 1); 4 := (1000, 0) ]}
  /\ prize_pool <$> tournaments r.1 !! 1 = Some 100.
Proof. repeat split; by vm_compute. Qed.

(** ** The state each handler leaves *)

Lemma enter_state tournamentId userId prediction d :
  (enter tournamentId userId prediction d).1 = d
  \/ exists t u, can_enter tournamentId userId t u d
                 /\ (enter tournamentId userId prediction d).1
                    = entered tournamentId userId prediction t d.
Proof.
  destruct (enter_cases tournamentId userId prediction d)
    as [(t & u & Hc & _ & ->)|[Hsame _]]; [|by left].
  right. by exists t, u.
Qed.

Lemma resolve_state tournamentId answer d :
  (resolve tournamentId answer d).1 = d
  \/ exists prize pool W,
       (resolve tournamentId answer d).1
       = pay prize pool W (mark_resolved tournamentId answer d)
       /\ (W <> [] -> exists t, tournaments d !! tournamentId = Some t
                                /\ prize = prize_pool t / Z.of_nat (length W)).
Proof.
  destruct (is_text answer && is_int4 tournamentId) eqn:Eok.
  2:{ left. by rewrite resolve_refused. }
  apply andb_true_iff in Eok as [Htx Hid].
  pose proof (resolve_accepted tournamentId answer d Htx Hid) as H.
  destruct (tournaments d !! tournamentId) as [t|] eqn:Et.
  - destruct (winning tournamentId answer d) as [|p W].
    + right. exists 0, 0, []. by rewrite H.
    + destruct H as [_ [-> | ->]]; [|by left].
      right. eexists _, _, (p :: W). split; [reflexivity|]. intros _. by exists t.
  - right. exists 0, 0, []. split; [|done].
    by destruct (winning tournamentId answer d); rewrite H.
Qed.

Lemma claim_state userId now db_now d :
  (claim_free_points userId now db_now d).1 = d
  \/ (claim_free_points userId now db_now d).1 = awarded userId db_now d.
Proof.
  unfold claim_free_points, claim_free_points_try, mbind, txn_bind, integer,
    query, award_claim, update, mret, txn_ret.
  destruct (is_int4 userId); [|by left].
  destruct (users d !! userId) as [u|]; [|by left].
  cbv beta iota zeta.
  destruct (last_claim_date u) as [lastClaim|].
  - destruct (Z.abs (now - lastClaim) <? cooldownHours * ms_per_hour);
      [by left|].
    destruct (award_fits userId d); [by right|by left].
  - destruct (award_fits userId d); [by right|by left].
Qed.

Lemma register_state e w n p d :
  let d1 := mkDb (users d) (users_id_seq d + 1) (tournaments d) (participants d) in
  (register e w n p d).1 = d
  \/ (register e w n p d).1 = d1
  \/ exists u, users d !! users_id_seq d = None /\ points u = 1000
               /\ (register e w n p d).1
                  = set_users (<[users_id_seq d := u]> (users d)) d1.
Proof.
  intros d1. unfold register.
  destruct (negb (truthy e) && negb (truthy w)); [by left|].
  destruct (negb (truthy n)); [by left|].
  destruct (truthy e && truthy p && negb (passwordRegex_test (default "" p)));
    [by left|].
  destruct (decide _) as [Hc|Hc]; [by right; left|].
  right; right. eexists. split; [|split; [|reflexivity]]; [|done].
  destruct (users d !! users_id_seq d) eqn:E; [|done].
  exfalso. apply Hc. left. by eexists.
Qed.

Lemma sweep_lookup now d tournamentId :
  tournaments (sweep now d).1 !! tournamentId
  = advance now <$> tournaments d !! tournamentId.
Proof.
  unfold sweep, close_due, start_due; simpl. rewrite !lookup_fmap.
  by destruct (tournaments d !! tournamentId).
Qed.

Lemma sweep_frame now d :
  users (sweep now d).1 = users d
  /\ participants (sweep now d).1 = participants d
  /\ users_id_seq (sweep now d).1 = users_id_seq d.
Proof. done. Qed.

Lemma step_unfold d r :
  step d r
  = match r with
    | Register e w n p => (register e w n p d).1
    | Enter t u p => (enter t u p d).1
    | Resolve t a => (resolve t a d).1
    | ClaimFree u now db_now => (claim_free_points u now db_now d).1
    | Sweep now => (sweep now d).1
    end.
Proof. by destruct r. Qed.

(** Case analysis on the request served by [step]. *)
Ltac step_cases r :=
  rewrite step_unfold;
  destruct r as [e w n p|t u p|t a|u now db_now|now]; cbv beta iota.

(** ** Invariants *)

Lemma map_Forall_alter_weak {A} (P : Z -> A -> Prop) (f : A -> A) (k : Z)
    (m : gmap Z A) :
  map_Forall P m ->
  (forall x, m !! k = Some x -> P k x -> P k (f x)) ->
  map_Forall P (alter f k m).
Proof.
  intros Hm Hf i y. rewrite lookup_alter.
  destruct (decide (k = i)) as [->|]; [|apply Hm].
  destruct (m !! i) as [x|] eqn:E; [|done].
  intros [= <-]. apply Hf; [done|]. by apply Hm.
Qed.

Lemma ledger_ok_entered tournamentId userId prediction t u d :
  can_enter tournamentId userId t u d -> ledger_ok d ->
  ledger_ok (entered tournamentId userId prediction t d).
Proof.
  intros [Ht Ha Hu Hf Hr Hn] [Hus Hts]. split; simpl.
  - apply map_Forall_alter_weak; [done|].
    intros x Hx _. simplify_eq. simpl. lia.
  - apply map_Forall_alter_weak; [done|].
    intros x Hx [Hp He]. simplify_eq. simpl. lia.
Qed.

Lemma ledger_ok_mark_resolved tournamentId answer d :
  ledger_ok d -> ledger_ok (mark_resolved tournamentId answer d).
Proof.
  intros [Hus Hts]. split; [done|]. simpl.
  apply map_Forall_alter_weak; [done|]. by intros x _ H.
Qed.

Lemma ledger_ok_pay prize pool W d :
  0 <= prize -> ledger_ok d -> ledger_ok (pay prize pool W d).
Proof.
  intros Hp. revert d. induction W as [|p W IH]; intros d Hd; [done|].
  rewrite pay_cons. apply IH. destruct Hd as [Hus Hts]. split; [|done]. simpl.
  apply map_Forall_alter_weak; [done|]. intros x _ Hx. simpl. lia.
Qed.

Lemma ledger_ok_step d r : ledger_ok d -> ledger_ok (step d r).
Proof.
  intros Hd. step_cases r.
  - destruct (register_state e w n p d) as [->|[->|(x & Hfresh & Hx & ->)]];
      [done|done|].
    destruct Hd as [Hus Hts]. split; [|done]. simpl.
    apply map_Forall_insert_2; [lia|done].
  - destruct (enter_state t u p d) as [->|(t0 & u0 & Hc & ->)]; [done|].
    by apply (ledger_ok_entered _ _ _ _ u0).
  - destruct (resolve_state t a d) as [->|(prize & pool & W & -> & HW)];
      [done|].
    destruct W as [|q W]; [by apply ledger_ok_mark_resolved|].
    destruct HW as (t0 & Ht0 & ->); [done|].
    apply ledger_ok_pay; [|by apply ledger_ok_mark_resolved].
    apply Z.div_pos; [|rewrite length_cons; lia].
    destruct Hd as [_ Hts]. by apply (Hts _ _ Ht0).
  - destruct (claim_state u now db_now d) as [->| ->]; [done|].
    destruct Hd as [Hus Hts]. split; [|done]. simpl.
    apply map_Forall_alter_weak; [done|].
    intros x _ Hx. simpl. unfold pointsToAdd. lia.
  - destruct Hd as [Hus Hts]. split; [done|].
    intros i t Hl. rewrite sweep_lookup in Hl.
    destruct (tournaments d !! i) as [t0|] eqn:E; [|done].
    simpl in Hl. simplify_eq. specialize (Hts _ _ E).
    unfold advance. repeat case_decide; simpl; done.
Qed.

Lemma ledger_ok_run rs d : ledger_ok d -> ledger_ok (run rs d).
Proof.
  revert d. induction rs as [|r rs IH]; intros d Hd; [done|].
  simpl. apply IH. by apply ledger_ok_step.
Qed.

(** C4. From a valid ledger, after every sequence of registrations,
    entries, resolutions, free claims and sweeps, every user's balance is
    non-negative. *)
Theorem points_never_negative (rs : list request) (d : db) (userId : Z) (u : user) :
  ledger_ok d ->
  users (run rs d) !! userId = Some u ->
  0 <= points u.
Proof.
  intros Hd Hu. destruct (ledger_ok_run rs d Hd) as [Hus _]. by apply (Hus _ _ Hu).
Qed.

Lemma demo_db_ledger_ok : ledger_ok demo_db.
Proof.
  split.
  - apply map_Forall_singleton. simpl. lia.
  - apply map_Forall_singleton. simpl. lia.
Qed.

Lemma points_never_negative_demo :
  users (run demo_day demo_db) !! 1
  = Some (mkUser (Some "demo@test.com") "DemoUser" 1600 0 1 (Some 1001))
  /\ 0 <= 1600.
Proof.
  split; [reflexivity|].
  exact (points_never_negative demo_day demo_db 1 _ demo_db_ledger_ok eq_refl).
Defined.

Lemma registry_ok_same_books d d' :
  participants d' = participants d ->
  (forall i t', tournaments d' !! i = Some t' ->
     exists t, tournaments d !! i = Some t /\ same_books t t') ->
  registry_ok d -> registry_ok d'.
Proof.
  intros Hp Ht Hd i t' Hl. destruct (Ht _ _ Hl) as (t & Hlt & Hf & Hm & Hc & Hpp).
  unfold entries. rewrite Hp, Hf, Hm, Hc, Hpp. by apply Hd.
Qed.

Lemma paid_app ps qs : paid (ps ++ qs) = paid ps + paid qs.
Proof. induction ps as [|p ps IH]; simpl; [done|]. rewrite IH. lia. Qed.

Lemma entries_entered tournamentId userId prediction t d i :
  entries i (entered tournamentId userId prediction t d)
  = entries i d
    ++ (if decide (tournamentId = i)
        then [mkParticipant tournamentId userId prediction (entry_fee t)]
        else []).
Proof.
  unfold entries, entered; simpl. rewrite filter_app. by f_equal.
Qed.

Lemma registry_ok_entered tournamentId userId prediction t u d :
  can_enter tournamentId userId t u d -> registry_ok d ->
  registry_ok (entered tournamentId userId prediction t d).
Proof.
  intros [Ht Ha Hu Hf Hr Hn] Hd i t' Hl.
  rewrite entries_entered.
  unfold entered in Hl; simpl in Hl. rewrite lookup_alter in Hl.
  destruct (decide (tournamentId = i)) as [<-|Hne].
  - rewrite Ht in Hl. simpl in Hl. simplify_eq. simpl.
    destruct (Hd _ _ Ht) as (Hc & Hm & Hp & Hall).
    rewrite length_app, paid_app. simpl. repeat split; try lia.
    apply Forall_app. split; [done|]. by apply Forall_singleton.
  - rewrite app_nil_r. by apply Hd.
Qed.

Lemma registry_ok_step d r : registry_ok d -> registry_ok (step d r).
Proof.
  intros Hd. step_cases r.
  - destruct (register_state e w n p d) as [->|[->|(x & _ & _ & ->)]]; done.
  - destruct (enter_state t u p d) as [->|(t0 & u0 & Hc & ->)]; [done|].
    by apply (registry_ok_entered _ _ _ _ u0).
  - destruct (resolve_state t a d) as [->|(prize & pool & W & -> & _)];
      [done|].
    destruct (pay_frame prize pool W (mark_resolved t a d)) as (Ht & Hp & _).
    apply (registry_ok_same_books d); [by rewrite Hp| |done].
    intros i t' Hl. rewrite Ht in Hl. unfold mark_resolved in Hl; simpl in Hl.
    rewrite lookup_alter in Hl.
    destruct (decide (t = i)) as [->|_]; [|by exists t'].
    destruct (tournaments d !! i) as [t0|] eqn:E; [|done].
    exists t0. split; [done|]. simpl in Hl. by simplify_eq.
  - destruct (claim_state u now db_now d) as [->| ->]; done.
  - apply (registry_ok_same_books d); [done| |done].
    intros i t' Hl. rewrite sweep_lookup in Hl.
    destruct (tournaments d !! i) as [t0|] eqn:E; [|done].
    exists t0. split; [done|]. simpl in Hl. simplify_eq.
    unfold advance. by repeat case_decide.
Qed.

Lemma registry_ok_run rs d : registry_ok d -> registry_ok (run rs d).
Proof.
  revert d. induction rs as [|r rs IH]; intros d Hd; [done|].
  simpl. apply IH. by apply registry_ok_step.
Qed.

Lemma paid_uniform fee ps :
  Forall (fun p => points_paid p = fee) ps -> paid ps = Z.of_nat (length ps) * fee.
Proof.
  induction 1 as [|p ps Hp _ IH]; simpl; [done|]. rewrite IH, Hp. lia.
Qed.

(** C5. From a valid registry, after every sequence of registrations,
    entries, resolutions, free claims and sweeps, every tournament's
    [current_participants] is the number of participant rows that name it
    and is at most [max_participants], and its [prize_pool] is the sum of
    the fees those rows paid, which is their number times the entry fee. *)
Theorem registry_counts_and_pool
    (rs : list request) (d : db) (tournamentId : Z) (t : tournament) :
  registry_ok d ->
  tournaments (run rs d) !! tournamentId = Some t ->
  let ps := entries tournamentId (run rs d) in
  current_participants t = Z.of_nat (length ps)
  /\ current_participants t <= max_participants t
  /\ prize_pool t = paid ps
  /\ prize_pool t = Z.of_nat (length ps) * entry_fee t.
Proof.
  intros Hd Hl ps. subst ps.
  destruct (registry_ok_run rs d Hd _ _ Hl) as (Hc & Hm & Hp & Hall).
  repeat split; try done. rewrite Hp. by apply paid_uniform.
Qed.

Lemma demo_db_registry_ok : registry_ok demo_db.
Proof.
  intros i t Hl. unfold demo_db in Hl; simpl in Hl.
  apply lookup_singleton_Some in Hl as [<- <-].
  repeat split; simpl; done.
Qed.

(** Two entries at fee 100 into [bitcoin]: pool 200. *)
Lemma registry_counts_and_pool_demo :
  tournaments (run demo_day demo_db) !! 1
  = Some (mkTournament ["Above $45,000"; "Below $45,000"] 100 50 200 2 0 7200000
            resolved (Some "Above $45,000"))
  /\ 200 = 2 * 100.
Proof.
  split; [reflexivity|].
  pose proof (registry_counts_and_pool demo_day demo_db 1 _ demo_db_registry_ok
                eq_refl) as H.
  exact (proj2 (proj2 (proj2 H))).
Defined.

Lemma participants_step d r :
  participants (step d r) = participants d
  \/ exists row, participants (step d r) = participants d ++ [row]
                 /\ entry_key row ∉ entry_key <$> participants d.
Proof.
  step_cases r.
  - destruct (register_state e w n p d) as [->|[->|(x & _ & _ & ->)]]; by left.
  - destruct (enter_state t u p d) as [->|(t0 & u0 & Hc & ->)]; [by left|].
    right. eexists. split; [reflexivity|].
    intros (q & Hk & Hq)%list_elem_of_fmap.
    apply (ce_fresh _ _ _ _ _ Hc q Hq).
    unfold entry_key in Hk; simpl in Hk. by simplify_eq.
  - destruct (resolve_state t a d) as [->|(prize & pool & W & -> & _)];
      [by left|].
    destruct (pay_frame prize pool W (mark_resolved t a d)) as (_ & -> & _).
    by left.
  - destruct (claim_state u now db_now d) as [->| ->]; by left.
  - by left.
Qed.

Lemma participants_run rs d :
  exists added, participants (run rs d) = participants d ++ added.
Proof.
  revert d. induction rs as [|r rs IH]; intros d.
  - exists []. by rewrite app_nil_r.
  - simpl. destruct (IH (step d r)) as (added & ->).
    destruct (participants_step d r) as [->|(row & -> & _)].
    + by exists added.
    + exists (row :: added). by rewrite <- app_assoc.
Qed.

Lemma unique_entries_run rs d : unique_entries d -> unique_entries (run rs d).
Proof.
  revert d. induction rs as [|r rs IH]; intros d Hd; [done|].
  simpl. apply IH. unfold unique_entries in *.
  destruct (participants_step d r) as [->|(row & -> & Hfresh)]; [done|].
  rewrite fmap_app. apply NoDup_app. split; [done|]. split.
  - intros k Hk Hk'. simpl in Hk'. apply list_elem_of_singleton in Hk'. by subst.
  - simpl. apply NoDup_singleton.
Qed.

(** C6. After every sequence of requests, entries included, the participant
    rows present before are all still there, unchanged and in place (rows
    are only ever appended), and if no (tournament, user) pair had two rows
    before, none has two after. *)
Theorem participants_unique_and_kept (rs : list request) (d : db) :
  unique_entries d ->
  unique_entries (run rs d)
  /\ exists added, participants (run rs d) = participants d ++ added.
Proof.
  intros Hd. split; [by apply unique_entries_run|apply participants_run].
Qed.

(** The same user entering twice, then another user: two rows. *)
Lemma participants_unique_and_kept_demo :
  let rs := [ Enter 1 1 "Above $45,000"; Enter 1 1 "Below $45,000";
              Enter 1 1 "Above $45,000"; Enter 1 2 "Above $45,000" ] in
  let d := set_users (<[ 2 := demo_user ]> (users demo_db)) demo_db in
  unique_entries d
  /\ unique_entries (run rs d)
  /\ participants (run rs d)
     = [ mkParticipant 1 1 "Above $45,000" 100;
         mkParticipant 1 2 "Above $45,000" 100 ].
Proof.
  intros rs d.
  assert (Hd : unique_entries d) by apply NoDup_nil_2.
  split; [exact Hd|].
  split; [exact (proj1 (participants_unique_and_kept rs d Hd))|reflexivity].
Defined.

(** ** Lifecycle *)

Lemma rank_inj s s' : rank s = rank s' -> s = s'.
Proof. by destruct s, s'. Qed.

Lemma advance_rank now t :
  (rank (status t) <= rank (status (advance now t)))%nat
  /\ (status (advance now t) = resolved -> status t = resolved).
Proof.
  destruct t as [o f m pp cp st en s c]. unfold advance, starts, expires.
  destruct s; repeat case_decide; simpl in *; split;
    first [done | lia | intuition congruence].
Qed.

Lemma advance_settled now t : ~ starts now (advance now t) /\ ~ expires now (advance now t).
Proof.
  destruct t as [o f m pp cp st en s c]. unfold advance, starts, expires.
  destruct s; repeat case_decide; simpl in *; split; intros [? ?];
    first [done | intuition congruence].
Qed.

Lemma advance_idem now t : advance now (advance now t) = advance now t.
Proof.
  destruct (advance_settled now t) as [Hs He]. revert Hs He.
  generalize (advance now t). intros t' Hs He. unfold advance.
  destruct (decide (starts now t')); [done|].
  cbv zeta. by destruct (decide (expires now t')).
Qed.

Lemma status_step d r tournamentId tr :
  tournaments d !! tournamentId = Some tr ->
  exists tr', tournaments (step d r) !! tournamentId = Some tr'
              /\ (rank (status tr) <= rank (status tr'))%nat
              /\ (status tr' = resolved ->
                  status tr = resolved
                  \/ exists answer, r = Resolve tournamentId answer).
Proof.
  intros Hl. step_cases r.
  - exists tr. destruct (register_state e w n p d) as [->|[->|(x & _ & _ & ->)]];
      split; auto.
  - destruct (enter_state t u p d) as [->|(t1 & u0 & Hc & ->)];
      [exists tr; split; auto|].
    unfold entered; simpl. rewrite lookup_alter.
    destruct (decide (t = tournamentId)) as [->|_]; [|exists tr; split; auto].
    rewrite Hl. eexists. split; [reflexivity|]. simpl. auto.
  - destruct (resolve_state t a d) as [->|(prize & pool & W & -> & _)];
      [exists tr; split; auto|].
    destruct (pay_frame prize pool W (mark_resolved t a d)) as (-> & _).
    unfold mark_resolved; simpl. rewrite lookup_alter.
    destruct (decide (t = tournamentId)) as [->|_]; [|exists tr; split; auto].
    rewrite Hl. eexists. split; [reflexivity|]. simpl. split.
    + destruct (status tr); simpl; lia.
    + intros _. right. by exists a.
  - exists tr. destruct (claim_state u now db_now d) as [->| ->]; split; auto.
  - rewrite sweep_lookup, Hl. eexists. split; [reflexivity|].
    destruct (advance_rank now tr) as [Hr Hres]. split; auto.
Qed.

Lemma status_run rs d tournamentId t :
  tournaments d !! tournamentId = Some t ->
  exists t', tournaments (run rs d) !! tournamentId = Some t'
             /\ (rank (status t) <= rank (status t'))%nat.
Proof.
  revert d t. induction rs as [|r rs IH]; intros d t Hl; [by exists t|].
  destruct (status_step d r _ _ Hl) as (t1 & Hl1 & Hr1 & _).
  destruct (IH _ _ Hl1) as (t' & Hl' & Hr'). exists t'. split; [done|lia].
Qed.

Lemma db_eq d d' :
  users d = users d' -> users_id_seq d = users_id_seq d' ->
  tournaments d = tournaments d' -> participants d = participants d' -> d = d'.
Proof. destruct d, d'; simpl. by intros -> -> -> ->. Qed.

Lemma count_zero (P : tournament -> Prop) `{!forall t, Decision (P t)}
    (m : gmap Z tournament) :
  (forall i t, m !! i = Some t -> ~ P t) ->
  size (filter (fun kt : Z * tournament => P kt.2) m) = 0%nat.
Proof.
  intros Hno. apply map_size_empty_iff, map_empty_filter.
  intros i t Hl. exact (Hno i t Hl).
Qed.

Lemma sweep_twice now d :
  sweep now (sweep now d).1 = ((sweep now d).1, (0, 0)%nat).
Proof.
  assert (Hfix : (sweep now (sweep now d).1).1 = (sweep now d).1).
  { apply db_eq; try done. apply map_eq. intros i.
    rewrite sweep_lookup. destruct (tournaments (sweep now d).1 !! i) as [t'|] eqn:E;
      [|done].
    rewrite sweep_lookup in E. destruct (tournaments d !! i) as [t|]; [|done].
    simpl in E. simplify_eq. simpl. f_equal. apply advance_idem. }
  rewrite (surjective_pairing (sweep now (sweep now d).1)), Hfix. f_equal.
  generalize (sweep_lookup now d). generalize (sweep now d).1. intros d' Hd'.
  unfold sweep. cbn [snd]. f_equal.
  - apply (count_zero (starts now)). intros i t' Hl.
    rewrite Hd' in Hl. destruct (tournaments d !! i) as [t|]; [|done].
    simpl in Hl. simplify_eq. apply advance_settled.
  - apply (count_zero (expires now)). intros i t' Hl.
    unfold start_due in Hl; simpl in Hl. rewrite lookup_fmap, Hd' in Hl.
    destruct (tournaments d !! i) as [t|]; [|done].
    simpl in Hl. destruct (advance_settled now t) as [Hs He].
    rewrite decide_False in Hl by done. by simplify_eq.
Qed.

(** C7. Under every request (registration, entry, resolution, free claim,
    sweep) the status of a tournament never moves back along pending,
    active, closed, resolved: after any sequence its rank is at least what it
    was and a resolved tournament is still resolved; a status it has left is
    never taken again; a tournament that was not resolved becomes resolved
    only through the resolution request for its id; and a sweep run a second
    time at the same instant leaves the state as the first run left it and
    updates no row. *)
Theorem status_only_moves_forward (d : db) (tournamentId : Z) (tr : tournament) :
  tournaments d !! tournamentId = Some tr ->
  (forall rs, exists tr',
      tournaments (run rs d) !! tournamentId = Some tr'
      /\ (rank (status tr) <= rank (status tr'))%nat
      /\ (status tr = resolved -> status tr' = resolved))
  /\ (forall rs1 rs2 t1 t2,
        tournaments (run rs1 d) !! tournamentId = Some t1 ->
        tournaments (run rs2 (run rs1 d)) !! tournamentId = Some t2 ->
        status t2 = status tr -> status t1 = status tr)
  /\ (forall r tr',
        tournaments (step d r) !! tournamentId = Some tr' ->
        status tr' = resolved ->
        status tr = resolved \/ exists answer, r = Resolve tournamentId answer)
  /\ (forall now, sweep now (sweep now d).1 = ((sweep now d).1, (0, 0)%nat)).
Proof.
  intros Hl. split; [|split; [|split]].
  - intros rs. destruct (status_run rs d _ _ Hl) as (tr' & Hl' & Hr).
    exists tr'. split; [done|]. split; [done|].
    intros Hres. rewrite Hres in Hr. destruct (status tr'); simpl in Hr; done || lia.
  - intros rs1 rs2 t1 t2 H1 H2 Heq.
    destruct (status_run rs1 d _ _ Hl) as (t1' & Hl1 & Hr1).
    destruct (status_run rs2 (run rs1 d) _ _ H1) as (t2' & Hl2 & Hr2).
    simplify_eq. apply rank_inj. rewrite Heq in Hr2. lia.
  - intros r tr' Hl' Hres.
    destruct (status_step d r _ _ Hl) as (tr'' & Hl'' & _ & Hor).
    simplify_eq. by apply Hor.
  - intros now. apply sweep_twice.
Qed.

(** [bitcoin] ends at 7200000: the sweep at that instant closes it, a second
    run changes nothing, and the later resolution makes it resolved. *)
Lemma status_only_moves_forward_demo :
  tournaments demo_db !! 1 = Some bitcoin
  /\ (sweep 7200000 demo_db).2 = (0, 1)%nat
  /\ sweep 7200000 (sweep 7200000 demo_db).1
     = ((sweep 7200000 demo_db).1, (0, 0)%nat)
  /\ status <$> tournaments (run demo_day demo_db) !! 1 = Some resolved.
Proof.
  split; [reflexivity|]. split; [reflexivity|].
  destruct (status_only_moves_forward demo_db 1 bitcoin eq_refl)
    as (_ & _ & _ & Hsweep).
  split; [exact (Hsweep 7200000)|reflexivity].
Defined.

(** ** Further properties of the handlers *)

Lemma total_insert {A} (col : A -> Z) (m : gmap Z A) (k : Z) (x : A) :
  m !! k = None -> total col (<[k := x]> m) = col x + total col m.
Proof.
  intros Hk. unfold total. rewrite map_fold_insert_L; [done| |done].
  intros. lia.
Qed.

Lemma total_alter {A} (col : A -> Z) (g : A -> A) (m : gmap Z A) (k : Z) (x : A) :
  m !! k = Some x -> total col (alter g k m) = total col m + col (g x) - col x.
Proof.
  intros Hk. rewrite <- (insert_delete_id m k x Hk) at 1 2.
  rewrite alter_insert_eq, !total_insert by apply lookup_delete_eq. lia.
Qed.

Lemma total_pay prize pool W d :
  (forall p, p ∈ W -> is_Some (users d !! user_id p)) ->
  total points (users (pay prize pool W d))
  = total points (users d) + Z.of_nat (length W) * prize.
Proof.
  revert d. induction W as [|p W IH]; intros d Hex.
  { change (pay prize pool [] d) with d. rewrite length_nil. lia. }
  rewrite pay_cons, IH.
  - destruct (Hex p) as [u Hu]; [left|].
    unfold credited at 1; simpl users.
    rewrite (total_alter _ _ _ _ u Hu). simpl points.
    change (length (p :: W)) with (S (length W)). lia.
  - intros q Hq. unfold credited; simpl. rewrite lookup_alter.
    destruct (Hex q) as [u Hu]; [by right|].
    destruct (decide (user_id p = user_id q)) as [Heq|_];
      [rewrite Heq, Hu|rewrite Hu]; by eexists.
Qed.

(** X1. Settlement and the ledger.  When the store accepts the call and
    every winning row names an existing user, [resolve] raises the sum of
    all balances by exactly [prize_pool - prize_pool mod |W|]; the
    tournament keeps its [prize_pool] column as it was. *)
Theorem resolve_total_credit (tournamentId : Z) (answer : string) (t : tournament)
    (d : db) :
  is_int4 tournamentId = true ->
  is_text answer = true ->
  tournaments d !! tournamentId = Some t ->
  winning tournamentId answer d <> [] ->
  credits_fit (prize_pool t / Z.of_nat (length (winning tournamentId answer d)))
              (winning tournamentId answer d) d ->
  (forall p, p ∈ winning tournamentId answer d -> is_Some (users d !! user_id p)) ->
  total points (users (resolve tournamentId answer d).1)
  = total points (users d) + prize_pool t
    - prize_pool t mod Z.of_nat (length (winning tournamentId answer d))
  /\ prize_pool <$> tournaments (resolve tournamentId answer d).1 !! tournamentId
     = Some (prize_pool t).
Proof.
  intros Hid Htx Ht HW Hfit Hex.
  pose proof (resolve_accepted tournamentId answer d Htx Hid) as H.
  rewrite Ht in H.
  destruct (winning tournamentId answer d) as [|p W] eqn:EW; [done|].
  destruct H as [H _]. rewrite (H Hfit). cbv zeta. cbn [fst]. split.
  - rewrite total_pay by done.
    change (users (mark_resolved tournamentId answer d)) with (users d).
    pose proof (Z.div_mod (prize_pool t) (Z.of_nat (length (p :: W)))) as Hdm.
    rewrite length_cons in *. lia.
  - destruct (pay_frame (prize_pool t / Z.of_nat (length (p :: W))) (prize_pool t)
                (p :: W) (mark_resolved tournamentId answer d)) as (-> & _).
    by rewrite mark_resolved_lookup, Ht.
Qed.

Lemma resolve_total_credit_demo :
  total points (users three_way_db) = 4000
  /\ total points (users (resolve 1 "Above $45,000" three_way_db).1) = 4099.
Proof.
  split; [reflexivity|].
  refine (eq_trans (proj1 (resolve_total_credit 1 "Above $45,000"
                             (set_prize_pool 100 (set_status closed bitcoin))
                             three_way_db eq_refl eq_refl eq_refl _ _ _)) _).
  - discriminate.
  - exact three_way_db_fits.
  - intros p Hp. vm_compute in Hp.
    repeat (apply elem_of_cons in Hp as [->|Hp]; [by eexists|]).
    by apply elem_of_nil in Hp.
  - reflexivity.
Defined.

Lemma credit_times_add prize m n u :
  credit_times prize n (credit_times prize m u) = credit_times prize (m + n) u.
Proof.
  destruct u. unfold credit_times, set_won_tournaments, set_points; simpl.
  f_equal; lia.
Qed.

Lemma resolve_winners_state tournamentId answer t d :
  is_int4 tournamentId = true ->
  is_text answer = true ->
  tournaments d !! tournamentId = Some t ->
  winning tournamentId answer d <> [] ->
  let W := winning tournamentId answer d in
  let prize := prize_pool t / Z.of_nat (length W) in
  credits_fit prize W d ->
  resolve tournamentId answer d
  = (pay prize (prize_pool t) W (mark_resolved tournamentId answer d),
     mkResponse 200 (Success (resolved_msg (length W)) (Some prize))).
Proof.
  intros Hid Htx Ht HW W prize Hfit. subst W prize.
  pose proof (resolve_accepted tournamentId answer d Htx Hid) as H.
  rewrite Ht in H.
  destruct (winning tournamentId answer d) as [|p W]; [done|].
  destruct H as [H _]. by rewrite (H Hfit).
Qed.

Lemma wins_app userId W W' : wins userId (W ++ W') = (wins userId W + wins userId W')%nat.
Proof. unfold wins. by rewrite filter_app, length_app. Qed.

(** X2. Resolving twice pays twice.  [resolve] does not look at the status,
    so a second call with the same answer on a tournament that has winners
    answers as the first did and credits every winning row once more, as
    long as the balances and counts of won tournaments stay within INTEGER
    through both rounds of credits. *)
Theorem resolve_again_pays_again (tournamentId : Z) (answer : string)
    (t : tournament) (d : db) :
  is_int4 tournamentId = true ->
  is_text answer = true ->
  tournaments d !! tournamentId = Some t ->
  winning tournamentId answer d <> [] ->
  credits_fit (prize_pool t / Z.of_nat (length (winning tournamentId answer d)))
              (winning tournamentId answer d ++ winning tournamentId answer d) d ->
  let W := winning tournamentId answer d in
  let prize := prize_pool t / Z.of_nat (length W) in
  let once := resolve tournamentId answer d in
  let twice := resolve tournamentId answer once.1 in
  once.2 = mkResponse 200 (Success (resolved_msg (length W)) (Some prize))
  /\ twice.2 = once.2
  /\ forall userId,
       users twice.1 !! userId
       = credit_times prize (wins userId W + wins userId W) <$> users d !! userId.
Proof.
  intros Hid Htx Ht HW Hfit2 W prize once twice. subst once twice.
  assert (Hfit : credits_fit prize W d).
  { intros userId u n Hu Hn. apply (Hfit2 userId u n Hu).
    rewrite wins_app. fold W. lia. }
  rewrite (resolve_winners_state _ _ t d Hid Htx Ht HW Hfit). fold W prize.
  cbn [fst snd].
  destruct (pay_frame prize (prize_pool t) W (mark_resolved tournamentId answer d))
    as (Htb & Hpt & _).
  set (d1 := pay prize (prize_pool t) W (mark_resolved tournamentId answer d)) in *.
  assert (HW1 : winning tournamentId answer d1 = W)
    by (unfold winning; by rewrite Hpt).
  assert (Ht1 : tournaments d1 !! tournamentId
                = Some (set_correct_answer (Some answer) (set_status resolved t))).
  { by rewrite Htb, mark_resolved_lookup, Ht. }
  assert (Hu1 : forall userId,
            users d1 !! userId
            = credit_times prize (wins userId W) <$> users d !! userId).
  { intros userId. unfold d1. by rewrite pay_users. }
  assert (Hfit1 : credits_fit prize W d1).
  { intros userId u1 n Hl1 Hn. rewrite Hu1 in Hl1.
    destruct (users d !! userId) as [u|] eqn:Eu; [|done].
    simpl in Hl1. injection Hl1 as <-.
    destruct (Hfit2 userId u (wins userId W + n)%nat Eu) as [Hp Hw].
    { rewrite wins_app. fold W. lia. }
    simpl. split.
    - replace (points u + Z.of_nat (wins userId W) * prize + Z.of_nat n * prize)
        with (points u + Z.of_nat (wins userId W + n) * prize) by lia. done.
    - replace (won_tournaments u + Z.of_nat (wins userId W) + Z.of_nat n)
        with (won_tournaments u + Z.of_nat (wins userId W + n)) by lia. done. }
  rewrite (resolve_winners_state _ _ _ d1 Hid Htx Ht1);
    [|by rewrite HW1|by rewrite HW1].
  rewrite HW1. cbn [fst snd prize_pool set_correct_answer set_status].
  fold prize. split; [done|]. split; [done|]. intros userId.
  rewrite pay_users.
  change (users (mark_resolved tournamentId answer d1)) with (users d1).
  rewrite Hu1.
  destruct (users d !! userId) as [u|]; [|done].
  simpl. by rewrite credit_times_add.
Qed.

Lemma three_way_db_fits_twice :
  credits_fit 33 (winning 1 "Above $45,000" three_way_db
                  ++ winning 1 "Above $45,000" three_way_db) three_way_db.
Proof.
  apply credits_fit_room; [lia|].
  intros i u Hu. unfold three_way_db in Hu; simpl in Hu.
  repeat (apply lookup_insert_Some in Hu as [[_ <-]|[_ Hu]];
          [vm_compute; repeat split; discriminate|]).
  apply lookup_singleton_Some in Hu as [_ <-].
  vm_compute; repeat split; discriminate.
Qed.

Lemma resolve_again_pays_again_demo :
  let twice := resolve 1 "Above $45,000" (resolve 1 "Above $45,000" three_way_db).1 in
  twice.2 = mkResponse 200 (Success "Tournament resolved with 3 winners" (Some 33))
  /\ points <$> users twice.1 !! 1 = Some 1066.
Proof.
  destruct (resolve_again_pays_again 1 "Above $45,000"
              (set_prize_pool 100 (set_status closed bitcoin)) three_way_db
              eq_refl eq_refl eq_refl ltac:(discriminate) three_way_db_fits_twice)
    as (Honce & Hresp & Husers).
  split; [by rewrite Hresp, Honce|]. cbv zeta in Husers. by rewrite Husers.
Defined.

Lemma advance_later now now' t :
  now <= now' -> advance now' (advance now t) = advance now' t.
Proof.
  intros Hle. destruct t as [o f m pp cp st en s c].
  unfold advance, starts, expires.
  destruct s; repeat case_decide; simpl in *;
    first [done | exfalso; intuition (congruence || lia)].
Qed.

(** X3. Sweeps compose.  A sweep at [now'] after a sweep at an earlier [now]
    leaves the state a single sweep at [now'] leaves; the intermediate
    sweep fires nothing that the later one would not. *)
Theorem sweep_later_absorbs (now now' : Z) (d : db) :
  now <= now' ->
  (sweep now' (sweep now d).1).1 = (sweep now' d).1.
Proof.
  intros Hle. apply db_eq; try done. apply map_eq. intros i.
  rewrite !sweep_lookup. destruct (tournaments d !! i) as [t|]; [|done].
  simpl. f_equal. by apply advance_later.
Qed.

(** [overdue_db]: a sweep at 5 followed by one at 7200000, and the latter
    alone. *)
Lemma sweep_later_absorbs_demo :
  sweep 7200000 overdue_db
  = (mkDb ∅ 1 {[ 1 := set_status closed bitcoin ]} [], (1, 1)%nat)
  /\ (sweep 7200000 (sweep 5 overdue_db).1).1 = (sweep 7200000 overdue_db).1.
Proof.
  split; [reflexivity|].
  apply (sweep_later_absorbs 5 7200000 overdue_db). lia.
Defined.

(** X4. An entry with ids within INTEGER by a user id that has no row gets
    the answer of a missing tournament: the join of the first query is
    empty. *)
Theorem enter_unknown_user (tournamentId userId : Z) (prediction : string) (d : db) :
  is_int4 tournamentId = true ->
  is_int4 userId = true ->
  users d !! userId = None ->
  enter tournamentId userId prediction d
  = (d, mkResponse 404 (Failure "Tournament not found or not active")).
Proof.
  intros Hi1 Hi2 Hu. unfold enter, enter_txn, mbind, txn_bind, integer, query,
    select_tournament_and_user. rewrite Hi1, Hi2, Hu.
  by destruct (tournaments d !! tournamentId).
Qed.

Lemma enter_unknown_user_demo :
  users demo_db !! 7 = None
  /\ enter 1 7 "Above $45,000" demo_db
     = (demo_db, mkResponse 404 (Failure "Tournament not found or not active")).
Proof.
  split; [reflexivity|].
  exact (enter_unknown_user 1 7 "Above $45,000" demo_db eq_refl eq_refl eq_refl).
Defined.

(** X5. Funds are conserved by an entry: whether it succeeds or fails, the sum
    of all balances plus the sum of all prize pools is what it was. *)
Theorem enter_conserves_funds (tournamentId userId : Z) (prediction : string)
    (d : db) :
  let d' := (enter tournamentId userId prediction d).1 in
  total points (users d') + total prize_pool (tournaments d')
  = total points (users d) + total prize_pool (tournaments d).
Proof.
  intros d'. subst d'.
  destruct (enter_state tournamentId userId prediction d)
    as [->|(t & u & Hc & ->)]; [done|].
  unfold entered, counted, insert_participant, debited; simpl.
  rewrite (total_alter _ _ _ _ u (ce_user _ _ _ _ _ Hc)).
  rewrite (total_alter _ _ _ _ t (ce_tournament _ _ _ _ _ Hc)).
  simpl. lia.
Qed.

Lemma total_tournaments_step d r userId row :
  users d !! userId = Some row ->
  exists row', users (step d r) !! userId = Some row'
               /\ total_tournaments row' = total_tournaments row.
Proof.
  intros Hu. step_cases r.
  - destruct (register_state e w n p d) as [->|[->|(x & Hfresh & _ & ->)]];
      [by exists row|by exists row|].
    exists row. split; [|done]. simpl. rewrite lookup_insert_ne; [done|].
    intros Heq. rewrite Heq in Hfresh. congruence.
  - destruct (enter_state t u p d) as [->|(t1 & u1 & Hc & ->)]; [by exists row|].
    unfold entered; simpl. rewrite lookup_alter.
    destruct (decide (u = userId)) as [->|_]; [|by exists row].
    rewrite Hu. by eexists.
  - destruct (resolve_state t a d) as [->|(prize & pool & W & -> & _)];
      [by exists row|].
    rewrite pay_users.
    change (users (mark_resolved t a d)) with (users d). rewrite Hu.
    by eexists.
  - destruct (claim_state u now db_now d) as [->| ->]; [by exists row|].
    unfold awarded; simpl. rewrite lookup_alter.
    destruct (decide (u = userId)) as [->|_]; [|by exists row].
    rewrite Hu. by eexists.
  - by exists row.
Qed.

(** X6. No request of the Postgres variant writes [total_tournaments]: a user
    row keeps the value it had through every sequence of requests, entries
    included (the SQLite variant increments it on entry, line 1500). *)
Theorem total_tournaments_never_written
    (rs : list request) (d : db) (userId : Z) (u : user) :
  users d !! userId = Some u ->
  exists u', users (run rs d) !! userId = Some u'
             /\ total_tournaments u' = total_tournaments u.
Proof.
  revert d u. induction rs as [|r rs IH]; intros d u Hu; [by exists u|].
  destruct (total_tournaments_step d r _ _ Hu) as (u1 & Hu1 & Heq1).
  destruct (IH _ _ Hu1) as (u' & Hu' & Heq'). exists u'.
  split; [done|congruence].
Qed.

Lemma total_tournaments_never_written_demo :
  users demo_db !! 1 = Some demo_user
  /\ total_tournaments <$> users (run demo_day demo_db) !! 1 = Some 0.
Proof.
  split; [reflexivity|].
  destruct (total_tournaments_never_written demo_day demo_db 1 demo_user eq_refl)
    as (u' & Hu' & Heq).
  rewrite Hu'. simpl. by rewrite Heq.
Defined.

(** ** Entries in sequence *)

Lemma enter_ok_inv tournamentId userId prediction d :
  (enter tournamentId userId prediction d).2 = entry_ok ->
  exists t u, can_enter tournamentId userId t u d
              /\ entry_fits tournamentId userId prediction t u
              /\ enter tournamentId userId prediction d
                 = (entered tournamentId userId prediction t d, entry_ok).
Proof.
  intros Hok.
  destruct (enter_cases tournamentId userId prediction d)
    as [(t & u & Hc & Hfits & He)|[_ Hno]]; [|done].
  by exists t, u.
Qed.

(** X7. One entry per user and tournament, for good.  Once an entry has
    succeeded, no later entry of the same user into the same tournament
    succeeds, whatever requests are served in between and whatever the
    prediction; the refused call leaves the state as it found it. *)
Theorem enter_never_twice (tournamentId userId : Z) (prediction : string) (d : db) :
  (enter tournamentId userId prediction d).2 = entry_ok ->
  forall (rs : list request) (again : string),
    let d' := run rs (enter tournamentId userId prediction d).1 in
    (enter tournamentId userId again d').2 <> entry_ok
    /\ (enter tournamentId userId again d').1 = d'.
Proof.
  intros Hok rs again d'.
  destruct (enter_ok_inv _ _ _ _ Hok) as (t & u & Hc & Hfits & He).
  assert (Hrow : mkParticipant tournamentId userId prediction (entry_fee t)
                 ∈ participants d').
  { subst d'. rewrite He. cbn [fst].
    destruct (participants_run rs (entered tournamentId userId prediction t d))
      as (added & ->).
    apply elem_of_app. left. unfold entered; simpl. apply elem_of_app. right.
    by apply list_elem_of_singleton. }
  assert (Hno : (enter tournamentId userId again d').2 <> entry_ok).
  { intros Hok'. destruct (enter_ok_inv _ _ _ _ Hok') as (t' & u' & Hc' & _).
    by apply (ce_fresh _ _ _ _ _ Hc' _ Hrow). }
  split; [done|].
  destruct (enter_state tournamentId userId again d')
    as [Hsame|(t' & u' & Hc' & _)]; [done|].
  exfalso. by apply (ce_fresh _ _ _ _ _ Hc' _ Hrow).
Qed.

Lemma enter_never_twice_demo :
  let d' := run [ClaimFree 1 1000 1001; Sweep 5]
                (enter 1 1 "Above $45,000" demo_db).1 in
  (enter 1 1 "Above $45,000" demo_db).2 = entry_ok
  /\ (enter 1 1 "Below $45,000" d').2 <> entry_ok
  /\ (enter 1 1 "Below $45,000" d').1 = d'.
Proof.
  split; [reflexivity|].
  exact (enter_never_twice 1 1 "Above $45,000" demo_db eq_refl
           [ClaimFree 1 1000 1001; Sweep 5] "Below $45,000").
Defined.

(** X8. The last slot.  When a tournament has one slot left and the entry
    of a user takes it, the entry of any other existing user who could pay
    is answered 400 'Tournament full' and changes nothing. *)
Theorem enter_last_slot_then_full
    (tournamentId first second : Z) (p1 p2 : string) (t : tournament)
    (u2 : user) (d : db) :
  tournaments d !! tournamentId = Some t ->
  (enter tournamentId first p1 d).2 = entry_ok ->
  current_participants t + 1 = max_participants t ->
  second <> first ->
  is_int4 second = true ->
  users d !! second = Some u2 ->
  entry_fee t <= points u2 ->
  let d1 := (enter tournamentId first p1 d).1 in
  enter tournamentId second p2 d1
  = (d1, mkResponse 400 (Failure "Tournament full")).
Proof.
  intros Ht Hok Hlast Hne Hi2 Hu2 Hf d1. subst d1.
  destruct (enter_ok_inv _ _ _ _ Hok) as (t' & u1 & Hc & Hfits & He).
  assert (t' = t) by (destruct Hc as [Ht' _ _ _ _ _]; congruence). subst t'.
  rewrite He. cbn [fst].
  apply (enter_fails tournamentId second p2 u2 Full).
  - by destruct Hfits as (? & _).
  - done.
  - unfold entered; simpl. rewrite lookup_alter, decide_False by done. done.
  - unfold entered at 1; simpl. rewrite lookup_alter, decide_True by done.
    rewrite Ht. simpl.
    rewrite decide_True by apply (ce_active _ _ _ _ _ Hc).
    rewrite decide_True by done. rewrite decide_False by lia. done.
Qed.

(** A tournament with room for one, and two users who can pay. *)
Lemma enter_last_slot_then_full_demo :
  let d := mkDb {[ 1 := demo_user; 2 := demo_user ]} 3
                {[ 1 := set_current_participants 49 bitcoin ]} [] in
  let d1 := (enter 1 1 "Above $45,000" d).1 in
  current_participants <$> tournaments d1 !! 1 = Some 50
  /\ enter 1 2 "Below $45,000" d1
     = (d1, mkResponse 400 (Failure "Tournament full")).
Proof.
  intros d d1. split; [reflexivity|].
  apply (enter_last_slot_then_full 1 1 2 "Above $45,000" "Below $45,000"
           (set_current_participants 49 bitcoin) demo_user d).
  - reflexivity.
  - reflexivity.
  - reflexivity.
  - done.
  - reflexivity.
  - reflexivity.
  - simpl. lia.
Defined.

(** X9. Entry is cut off by the sweep, not by the clock.  [enter] reads no
    time: a tournament that is still marked active accepts an entry that
    meets the preconditions and that the store accepts even though its end
    time has passed, and the same entry is answered 404 once a sweep at or
    after the end time has run. *)
Theorem enter_open_until_swept
    (tournamentId userId : Z) (prediction : string) (t : tournament) (u : user)
    (now : Z) (d : db) :
  can_enter tournamentId userId t u d ->
  entry_fits tournamentId userId prediction t u ->
  end_time t <= now ->
  (enter tournamentId userId prediction d).2 = entry_ok
  /\ enter tournamentId userId prediction (sweep now d).1
     = ((sweep now d).1,
        mkResponse 404 (Failure "Tournament not found or not active")).
Proof.
  intros Hc Hfits Hend. split; [by rewrite (enter_done _ _ _ t u)|].
  destruct Hfits as (Hi1 & Hi2 & _).
  apply (enter_fails tournamentId userId prediction u NotActive); [done|done| |].
  - apply (ce_user _ _ _ _ _ Hc).
  - rewrite sweep_lookup, (ce_tournament _ _ _ _ _ Hc). simpl.
    assert (Hs : status (advance now t) = closed).
    { pose proof (ce_active _ _ _ _ _ Hc) as Ha. unfold advance.
      destruct (decide (starts now t)) as [[Hp _]|_]; [congruence|].
      cbv zeta. by rewrite decide_True by (by split). }
    rewrite decide_False; [done|]. by rewrite Hs.
Qed.

(** [bitcoin] ends at 7200000; at 9000000 no sweep has run yet. *)
Lemma enter_open_until_swept_demo :
  end_time bitcoin <= 9000000
  /\ (enter 1 1 "Above $45,000" demo_db).2 = entry_ok
  /\ (enter 1 1 "Above $45,000" (sweep 9000000 demo_db).1).2
     = mkResponse 404 (Failure "Tournament not found or not active").
Proof.
  assert (Hend : end_time bitcoin <= 9000000) by (simpl; lia).
  destruct (enter_open_until_swept 1 1 "Above $45,000" bitcoin demo_user 9000000
              demo_db demo_can_enter
              (demo_entry_fits "Above $45,000" eq_refl) Hend)
    as [Hopen Hshut].
  split; [exact Hend|]. split; [exact Hopen|]. by rewrite Hshut.
Defined.

(** X10. Two claims in a row.  After a granted claim stamped [db_now] by the
    store, a second claim whose handler clock reads less than 24 hours away
    from that stamp is answered 429, naming the instant 24 hours after the
    stamp, and the balance stays at the 500 points gained once. *)
Theorem claim_again_refused
    (userId now1 db_now1 now2 db_now2 : Z) (u : user) (d : db) :
  is_int4 userId = true ->
  users d !! userId = Some u ->
  ~ cooling now1 u ->
  is_int4 (points u + 500) = true ->
  Z.abs (now2 - db_now1) < 24 * 3600000 ->
  let d1 := (claim_free_points userId now1 db_now1 d).1 in
  points <$> users d1 !! userId = Some (points u + 500)
  /\ claim_free_points userId now2 db_now2 d1
     = (d1, mkResponse 429 (CooldownActive (db_now1 + 24 * 3600000))).
Proof.
  intros Hi Hu Hfree Hfit Hnear d1.
  destruct (claim_cases userId now1 db_now1 u d Hi Hu) as (_ & Hgrant & _).
  assert (Hd1 : d1 = awarded userId db_now1 d).
  { subst d1. by rewrite (Hgrant Hfree Hfit). }
  assert (Hl : users d1 !! userId
               = Some (set_last_claim_date (Some db_now1)
                         (set_points (points u + pointsToAdd) u))).
  { rewrite Hd1. unfold awarded; simpl.
    rewrite lookup_alter, decide_True by done. by rewrite Hu. }
  split; [by rewrite Hl|].
  destruct (claim_cases userId now2 db_now2 _ d1 Hi Hl) as (Hwait & _).
  by apply Hwait.
Qed.

Lemma claim_again_refused_demo :
  let d1 := (claim_free_points 1 1000 1001 demo_db).1 in
  points <$> users d1 !! 1 = Some 1500
  /\ claim_free_points 1 2000 2001 d1
     = (d1, mkResponse 429 (CooldownActive 86401001)).
Proof.
  refine (claim_again_refused 1 1000 1001 2000 2001 demo_user demo_db eq_refl
            eq_refl _ eq_refl _).
  - by intros (lastClaim & Hl & _).
  - simpl. lia.
Defined.

(** ** User statistics *)

(** X11. The advertised claim time is honoured.  Whatever instant
    [/api/user/stats] reports as [next_claim_available], a free claim made at
    or after it is granted when the new balance is within INTEGER; and while
    the last claim lies in the past and that instant has not come, the claim
    is refused and names the same instant. *)
Theorem stats_next_claim_honoured
    (round_percent : Z -> Z -> Z) (userId asked now db_now : Z) (u : user) (d : db) :
  is_int4 userId = true ->
  users d !! userId = Some u ->
  exists accuracy next,
    user_stats round_percent userId asked d = Stats u accuracy next
    /\ (next <= now ->
        is_int4 (points u + 500) = true ->
        (claim_free_points userId now db_now d).2
        = mkResponse 200 (PointsAwarded 500 (now + 24 * 3600000)))
    /\ (forall lastClaim, last_claim_date u = Some lastClaim ->
        lastClaim <= now < next ->
        claim_free_points userId now db_now d
        = (d, mkResponse 429 (CooldownActive next))).
Proof.
  intros Hi Hu.
  destruct (claim_cases userId now db_now u d Hi Hu) as (Hwait & Hgrant & _).
  unfold user_stats. rewrite Hu.
  eexists _, _. split; [reflexivity|].
  unfold cooling, cooldownHours, ms_per_hour in *.
  destruct (last_claim_date u) as [lastClaim|].
  - split.
    + intros Hnext Hfit. rewrite Hgrant; [done| |done].
      intros (l & [= <-] & Hlt). lia.
    + intros l [= <-] [Hpast Hsoon].
      rewrite (Hwait lastClaim eq_refl) by lia. repeat f_equal; lia.
  - split; [|done]. intros _ Hfit. rewrite Hgrant; [done| |done].
    by intros (l & Hl & _).
Qed.

Lemma stats_next_claim_honoured_demo :
  users claimed_db !! 1 = Some claimed_user
  /\ user_stats (fun _ _ => 0) 1 5000 claimed_db = Stats claimed_user 0 86401001
  /\ (claim_free_points 1 86401001 86401002 claimed_db).2
     = mkResponse 200 (PointsAwarded 500 172801001).
Proof.
  split; [reflexivity|].
  destruct (stats_next_claim_honoured (fun _ _ => 0) 1 5000 86401001 86401002
              claimed_user claimed_db eq_refl eq_refl)
    as (accuracy & next & Hs & Hgrant & _).
  split; [reflexivity|]. apply Hgrant; [|reflexivity].
  assert (Hn : next = 86401001) by (vm_compute in Hs; congruence).
  rewrite Hn. apply Z.le_refl.
Defined.

Lemma register_new_row e w n p d :
  let d1 := mkDb (users d) (users_id_seq d + 1) (tournaments d) (participants d) in
  (register e w n p d).1 = d
  \/ (register e w n p d).1 = d1
  \/ exists e' name,
       users d !! users_id_seq d = None
       /\ (register e w n p d).1
          = set_users (<[users_id_seq d := mkUser e' name 1000 0 0 None]> (users d))
                      d1.
Proof.
  intros d1. unfold register.
  destruct (negb (truthy e) && negb (truthy w)); [by left|].
  destruct (negb (truthy n)); [by left|].
  destruct (truthy e && truthy p && negb (passwordRegex_test (default "" p)));
    [by left|].
  destruct (decide _) as [Hc|Hc]; [by right; left|].
  right; right. eexists _, _. split; [|reflexivity].
  destruct (users d !! users_id_seq d) eqn:E; [|done].
  exfalso. apply Hc. left. by eexists.
Qed.

Lemma never_played_pay prize pool W d :
  map_Forall (fun _ u => total_tournaments u = 0) (users d) ->
  map_Forall (fun _ u => total_tournaments u = 0) (users (pay prize pool W d)).
Proof.
  revert d. induction W as [|p W IH]; intros d Hd; [done|].
  rewrite pay_cons. apply IH. unfold credited; simpl.
  apply map_Forall_alter_weak; [done|]. by intros x _ Hx.
Qed.

Lemma never_played_step d r :
  map_Forall (fun _ u => total_tournaments u = 0) (users d) ->
  map_Forall (fun _ u => total_tournaments u = 0) (users (step d r)).
Proof.
  intros Hd. step_cases r.
  - destruct (register_new_row e w n p d) as [->|[->|(e' & name & _ & ->)]];
      [done|done|].
    simpl. by apply map_Forall_insert_2.
  - destruct (enter_state t u p d) as [->|(t0 & u0 & Hc & ->)]; [done|].
    unfold entered; simpl. apply map_Forall_alter_weak; [done|]. by intros x _ Hx.
  - destruct (resolve_state t a d) as [->|(prize & pool & W & -> & _)];
      [done|].
    by apply never_played_pay.
  - destruct (claim_state u now db_now d) as [->| ->]; [done|].
    unfold awarded; simpl. apply map_Forall_alter_weak; [done|].
    by intros x _ Hx.
  - done.
Qed.

(** X12. In the Postgres variant the accuracy statistic is stuck at 0.
    No request writes [total_tournaments], so from a state where it is 0 for
    every user (as it is for every registered or seeded user), after any
    sequence of registrations, entries, resolutions, claims and sweeps the
    statistics of every user report accuracy 0, however the percentage is
    rounded and however many tournaments the user has won. *)
Theorem accuracy_always_zero
    (round_percent : Z -> Z -> Z) (rs : list request) (userId asked : Z) (u : user)
    (d : db) :
  map_Forall (fun _ u => total_tournaments u = 0) (users d) ->
  users (run rs d) !! userId = Some u ->
  exists next, user_stats round_percent userId asked (run rs d) = Stats u 0 next.
Proof.
  intros Hd Hu.
  assert (Hrun : map_Forall (fun _ u => total_tournaments u = 0) (users (run rs d))).
  { clear Hu. revert d Hd. induction rs as [|r rs IH]; intros d Hd; [done|].
    simpl. apply IH. by apply never_played_step. }
  unfold user_stats. rewrite Hu, (Hrun _ _ Hu). by eexists.
Qed.

(** After [demo_day] user 1 has won a tournament, and still scores 0. *)
Lemma accuracy_always_zero_demo :
  won_tournaments <$> users (run demo_day demo_db) !! 1 = Some 1
  /\ exists next,
       user_stats (fun won total => 100 * won) 1 9000000 (run demo_day demo_db)
       = Stats (mkUser (Some "demo@test.com") "DemoUser" 1600 0 1 (Some 1001)) 0 next.
Proof.
  split; [reflexivity|].
  apply (accuracy_always_zero (fun won total => 100 * won) demo_day 1 9000000 _
           demo_db).
  - by apply map_Forall_singleton.
  - reflexivity.
Defined.

(** ** The SQLite variant *)

Lemma sqlite_enter_done tournamentId userId prediction t u d :
  can_enter tournamentId userId t u d ->
  Sqlite.enter tournamentId userId prediction d
  = (counted (entry_fee t) tournamentId
       (insert_participant
          (mkParticipant tournamentId userId prediction (entry_fee t))
          (Sqlite.debit_user (entry_fee t) userId d)),
     entry_ok).
Proof.
  intros [Ht Ha Hu Hf Hr Hn].
  unfold Sqlite.enter, Sqlite.enter_txn, mbind, txn_bind, query,
    select_tournament_and_user.
  rewrite Ht, Hu. rewrite decide_True by done.
  destruct (points u <? entry_fee t) eqn:E1; [lia|].
  destruct (current_participants t >=? max_participants t) eqn:E2; [lia|].
  apply select_existing_nil in Hn. rewrite Hn. reflexivity.
Qed.

Lemma sqlite_enter_refused tournamentId userId prediction d :
  (forall t u, ~ can_enter tournamentId userId t u d) ->
  exists msg,
    Sqlite.enter tournamentId userId prediction d
    = (d, mkResponse 400 (Failure msg)).
Proof.
  intros Hno.
  unfold Sqlite.enter, Sqlite.enter_txn, mbind, txn_bind, query,
    select_tournament_and_user, throw.
  destruct (tournaments d !! tournamentId) as [t|] eqn:Et; [|by eexists].
  destruct (users d !! userId) as [u|] eqn:Eu; [|by eexists].
  destruct (decide (status t = active)) as [Ha|Ha]; [|by eexists].
  destruct (points u <? entry_fee t) eqn:E1; [by eexists|].
  destruct (current_participants t >=? max_participants t) eqn:E2; [by eexists|].
  destruct (select_existing tournamentId userId d) as [|q qs] eqn:E3; [|by eexists].
  exfalso. apply (Hno t u). split; try done; try lia.
  by apply select_existing_nil.
Qed.


Lemma can_enter_cases tournamentId userId d :
  (exists t u, can_enter tournamentId userId t u d)
  \/ (forall t u, ~ can_enter tournamentId userId t u d).
Proof.
  destruct (tournaments d !! tournamentId) as [t|] eqn:Et;
    [|right; intros t u [? ? ? ? ? ?]; congruence].
  destruct (users d !! userId) as [u|] eqn:Eu;
    [|right; intros t' u [? ? ? ? ? ?]; congruence].
  destruct (decide (status t = active)) as [Ha|Ha];
    [|right; intros t' u' [? ? ? ? ? ?]; congruence].
  destruct (decide (entry_fee t <= points u)) as [Hf|Hf];
    [|right; intros t' u' [? ? ? ? ? ?]; simplify_eq; lia].
  destruct (decide (current_participants t < max_participants t)) as [Hr|Hr];
    [|right; intros t' u' [? ? ? ? ? ?]; simplify_eq; lia].
  destruct (select_existing tournamentId userId d) as [|q qs] eqn:E.
  - left. exists t, u. split; try done. by apply select_existing_nil.
  - right. intros t' u' [_ _ _ _ _ Hn]. apply select_existing_nil in Hn.
    congruence.
Qed.




Lemma sqlite_enter_state tournamentId userId prediction d :
  (Sqlite.enter tournamentId userId prediction d).1 = d
  \/ exists t u,
       can_enter tournamentId userId t u d
       /\ (Sqlite.enter tournamentId userId prediction d).1
          = counted (entry_fee t) tournamentId
              (insert_participant
                 (mkParticipant tournamentId userId prediction (entry_fee t))
                 (Sqlite.debit_user (entry_fee t) userId d)).
Proof.
  destruct (can_enter_cases tournamentId userId d) as [(t & u & Hc)|Hno].
  - right. exists t, u. split; [done|]. by rewrite (sqlite_enter_done _ _ _ t u).
  - left. by destruct (sqlite_enter_refused _ _ prediction _ Hno) as (msg & ->).
Qed.

Lemma for_each_exec {A} (g : A -> db -> db) (xs : list A) (d : db) :
  for_each (fun x => exec (g x)) xs d = Done tt (foldl (fun d x => g x d) d xs).
Proof.
  revert d. induction xs as [|x xs IH]; intros d; [done|].
  simpl. unfold mbind, txn_bind, exec at 1. apply IH.
Qed.

Lemma sqlite_resolve_done tournamentId answer d :
  Sqlite.resolve tournamentId answer d
  = match tournaments d !! tournamentId, winning tournamentId answer d with
    | Some t, (_ :: _) as W =>
        let prize := prize_pool t / Z.of_nat (length W) in
        (pay prize (prize_pool t) W (mark_resolved tournamentId answer d),
         mkResponse 200
           (Success ("Tournament resolved, " +:+ string_of_nat (length W)
                     +:+ " winners") (Some prize)))
    | _, _ =>
        (mark_resolved tournamentId answer d,
         mkResponse 200 (Success "Tournament resolved, no winners" None))
    end.
Proof.
  unfold Sqlite.resolve, Sqlite.resolve_txn, mbind, txn_bind, exec at 1, query.
  rewrite select_winners_join.
  assert (HW : winning tournamentId answer (mark_resolved tournamentId answer d)
               = winning tournamentId answer d) by done.
  rewrite HW, mark_resolved_lookup.
  destruct (tournaments d !! tournamentId) as [t|];
    [|by destruct (winning tournamentId answer d)].
  cbn [fmap option_fmap option_map set_correct_answer set_status prize_pool].
  destruct (winning tournamentId answer d) as [|p W]; [done|].
  rewrite fmap_cons. cbn beta iota.
  rewrite for_each_exec. unfold mret, txn_ret, pay.
  rewrite length_cons, fmap_cons, length_cons, !length_fmap. reflexivity.
Qed.

Lemma sqlite_resolve_state tournamentId answer d :
  exists prize pool W,
    (Sqlite.resolve tournamentId answer d).1
    = pay prize pool W (mark_resolved tournamentId answer d).
Proof.
  rewrite sqlite_resolve_done.
  destruct (tournaments d !! tournamentId) as [t|].
  - destruct (winning tournamentId answer d) as [|p W].
    + by exists 0, 0, [].
    + by eexists _, _, (p :: W).
  - exists 0, 0, []. by destruct (winning tournamentId answer d).
Qed.

Lemma played_ok_step d r : played_ok d -> played_ok (Sqlite.step d r).
Proof.
  intros Hd. destruct r as [t u p|t|t a|now]; simpl.
  - destruct (sqlite_enter_state t u p d) as [->|(t0 & u0 & Hc & ->)]; [done|].
    intros i x. unfold entries_of; simpl. rewrite lookup_alter, filter_app.
    rewrite length_app, filter_cons, filter_nil. simpl.
    destruct (decide (u = i)) as [->|Hne].
    + destruct (users d !! i) as [y|] eqn:Ey; [|done].
      intros [= <-]. simpl. rewrite (Hd _ _ Ey). unfold entries_of. lia.
    + intros Hx. rewrite (Hd _ _ Hx). unfold entries_of. simpl. lia.
  - done.
  - destruct (sqlite_resolve_state t a d) as (prize & pool & W & ->).
    intros i x. rewrite pay_users.
    destruct (pay_frame prize pool W (mark_resolved t a d)) as (_ & Hp & _).
    unfold entries_of. rewrite Hp.
    change (users (mark_resolved t a d)) with (users d).
    change (participants (mark_resolved t a d)) with (participants d).
    destruct (users d !! i) as [y|] eqn:Ey; [|done].
    intros [= <-]. simpl. by apply Hd.
  - done.
Qed.

(** X14. In the SQLite variant [total_tournaments] counts entries.  From a
    state where every user's [total_tournaments] is the number of that
    user's participant rows, it still is after any sequence of entries,
    starts, resolutions and cron runs of the SQLite server. *)
Theorem sqlite_total_tournaments_counts_entries
    (rs : list Sqlite.request) (d : db) (userId : Z) (u : user) :
  played_ok d ->
  users (Sqlite.run rs d) !! userId = Some u ->
  total_tournaments u = Z.of_nat (length (entries_of userId (Sqlite.run rs d))).
Proof.
  intros Hd. revert d Hd. induction rs as [|r rs IH]; intros d Hd Hu.
  - by apply Hd.
  - simpl in *. apply (IH (Sqlite.step d r)); [by apply played_ok_step|done].
Qed.

Lemma sqlite_total_tournaments_counts_entries_demo :
  let rs := [ Sqlite.Enter 1 1 "Above $45,000"; Sqlite.Enter 1 1 "Below $45,000";
              Sqlite.Cron 7200000; Sqlite.Resolve 1 "Above $45,000" ] in
  users (Sqlite.run rs demo_db) !! 1
  = Some (mkUser (Some "demo@test.com") "DemoUser" 1000 1 1 None)
  /\ 1 = Z.of_nat (length (entries_of 1 (Sqlite.run rs demo_db))).
Proof.
  intros rs. split; [reflexivity|].
  apply (sqlite_total_tournaments_counts_entries rs demo_db 1
           (mkUser (Some "demo@test.com") "DemoUser" 1000 1 1 None)).
  - intros i x Hx. unfold demo_db in Hx; simpl in Hx.
    apply lookup_singleton_Some in Hx as [<- <-]. reflexivity.
  - reflexivity.
Defined.

(** X15. Starting a tournament by hand.  The admin start request always
    answers 200 'Tournament started'.  It moves a pending tournament to
    active, after which an entry that a pending tournament refuses is
    accepted; on a tournament that is not pending, or on an id with no
    tournament, it changes nothing. *)
Theorem sqlite_start_opens_pending_only (tournamentId : Z) (d : db) :
  (Sqlite.start tournamentId d).2 = mkResponse 200 (Success "Tournament started" None)
  /\ (forall t, tournaments d !! tournamentId = Some t -> status t = pending ->
      forall userId u prediction,
        users d !! userId = Some u ->
        entry_fee t <= points u ->
        current_participants t < max_participants t ->
        select_existing tournamentId userId d = [] ->
        Sqlite.enter tournamentId userId prediction d
        = (d, mkResponse 400 (Failure "Tournament not found or not active"))
        /\ (Sqlite.enter tournamentId userId prediction
              (Sqlite.start tournamentId d).1).2 = entry_ok)
  /\ ((forall t, tournaments d !! tournamentId = Some t -> status t <> pending) ->
      (Sqlite.start tournamentId d).1 = d).
Proof.
  split; [done|]. split.
  - intros t Ht Hp userId u prediction Hu Hf Hr Hn. split.
    + unfold Sqlite.enter, Sqlite.enter_txn, mbind, txn_bind, query,
        select_tournament_and_user. rewrite Ht, Hu.
      rewrite decide_False by congruence. reflexivity.
    + rewrite (sqlite_enter_done _ _ _ (set_status active t) u); [done|].
      split; try done.
      * unfold Sqlite.start; simpl. rewrite lookup_alter, decide_True by done.
        rewrite Ht. simpl. by rewrite decide_True.
      * by apply select_existing_nil.
  - intros Hnp. unfold Sqlite.start; simpl. apply db_eq; try done. simpl.
    apply alter_id. intros t Ht. rewrite decide_False; [done|]. by apply Hnp.
Qed.

(** X16. The two servers on one settlement.  The SQLite resolution always
    answers 200.  The Postgres resolution answers 200 when its store
    accepts the call (id within INTEGER, answer without NUL, credits within
    INTEGER), and whenever it answers 200 the SQLite resolution leaves
    exactly the same state and reports the same prize per winner, only the
    wording of the message differs; otherwise it answers 500 and leaves the
    state as it was.  The SQLite cron job leaves the state the Postgres
    sweep leaves. *)
Theorem sqlite_resolve_matches_postgres (tournamentId : Z) (answer : string)
    (now : Z) (d : db) :
  status_code (Sqlite.resolve tournamentId answer d).2 = 200
  /\ (is_int4 tournamentId = true -> is_text answer = true ->
      (forall t, tournaments d !! tournamentId = Some t ->
         credits_fit
           (prize_pool t / Z.of_nat (length (winning tournamentId answer d)))
           (winning tournamentId answer d) d) ->
      status_code (resolve tournamentId answer d).2 = 200)
  /\ (status_code (resolve tournamentId answer d).2 = 200 ->
      (Sqlite.resolve tournamentId answer d).1 = (resolve tournamentId answer d).1
      /\ forall msg prize,
           (resolve tournamentId answer d).2 = mkResponse 200 (Success msg prize) ->
           exists msg',
             (Sqlite.resolve tournamentId answer d).2
             = mkResponse 200 (Success msg' prize))
  /\ (status_code (resolve tournamentId answer d).2 <> 200 ->
      resolve tournamentId answer d
      = (d, mkResponse 500 (Failure "Failed to resolve tournament")))
  /\ Sqlite.cron now d = (sweep now d).1.
Proof.
  rewrite sqlite_resolve_done.
  destruct (is_text answer && is_int4 tournamentId) eqn:Eok.
  2:{ rewrite (resolve_refused _ _ _ Eok).
      split; [by destruct (tournaments d !! tournamentId);
                [destruct (winning tournamentId answer d)|]|].
      split; [intros Hid Htx; by rewrite Hid, Htx in Eok|].
      split; [done|]. by split. }
  apply andb_true_iff in Eok as [Htx Hid].
  pose proof (resolve_accepted tournamentId answer d Htx Hid) as H.
  destruct (tournaments d !! tournamentId) as [t|] eqn:Et.
  - destruct (winning tournamentId answer d) as [|p W] eqn:EW.
    + rewrite H. split; [done|]. split; [done|]. split; [|by split].
      intros _. split; [done|]. intros msg prize [= <- <-]. by eexists.
    + cbv zeta in H. destruct H as [Hfit [He | He]].
      * rewrite He. split; [done|]. split; [done|]. split; [|by split].
        intros _. split; [done|]. cbv zeta. intros msg prize [= <- <-]. by eexists.
      * split; [done|]. split; [|by rewrite He].
        intros _ _ Hf. rewrite (Hfit (Hf t eq_refl)) in He. discriminate He.
  - assert (H' : resolve tournamentId answer d
                 = (mark_resolved tournamentId answer d,
                    mkResponse 200 (Success "Tournament resolved, no winners" None)))
      by (by destruct (winning tournamentId answer d)).
    rewrite H'. split; [by destruct (winning tournamentId answer d)|].
    split; [done|]. split; [|by split].
    intros _. split; [by destruct (winning tournamentId answer d)|].
    intros msg prize [= <- <-]. destruct (winning tournamentId answer d); by eexists.
Qed.

(** [capped_db]: the Postgres store refuses the credit, SQLite pays it. *)
Example sqlite_resolve_past_the_integer_limit :
  resolve 1 "Above $45,000" capped_db
  = (capped_db, mkResponse 500 (Failure "Failed to resolve tournament"))
  /\ (Sqlite.resolve 1 "Above $45,000" capped_db).2
     = mkResponse 200 (Success "Tournament resolved, 1 winners" (Some 100))
  /\ points <$> users (Sqlite.resolve 1 "Above $45,000" capped_db).1 !! 1
     = Some 2147483747.
Proof. repeat split; by vm_compute. Qed.

(** ** Authentication middleware *)

Lemma split_word sep (word rest : string) :
  sep ∉ list_ascii_of_string word ->
  split sep (word +:+ String sep rest) = word :: split sep rest.
Proof.
  induction word as [|c word IH]; intros Hfree; simpl.
  - by rewrite decide_True.
  - simpl in Hfree. apply not_elem_of_cons in Hfree as [Hc Hfree].
    rewrite decide_False by done. by rewrite IH.
Qed.

Lemma split_last sep (word : string) :
  sep ∉ list_ascii_of_string word -> split sep word = [word].
Proof.
  induction word as [|c word IH]; intros Hfree; simpl; [done|].
  simpl in Hfree. apply not_elem_of_cons in Hfree as [Hc Hfree].
  rewrite decide_False by done. by rewrite IH.
Qed.

Lemma split_head sep (s : string) : exists word words, split sep s = word :: words.
Proof.
  induction s as [|c s (word & words & IH)]; simpl; [by eexists _, _|].
  destruct (decide (c = sep)); [by eexists _, _|]. rewrite IH. by eexists _, _.
Qed.

Lemma append_nonempty (a b : string) : a +:+ String " " b <> "".
Proof. by destruct a. Qed.

(** X17. What the middleware takes for the token.  The token is the second
    space-separated word of the Authorization header: for a non-empty token
    without spaces the header [Bearer <token>] the client sends, and the same
    header with any other first word or with further words after the token,
    all lead to the verdict of [jwt.verify] on that token; a header that is
    absent or has a single word is answered 401 'Access token required'
    without the token being verified. *)
Theorem authenticate_takes_second_word
    (jwt_verify : string -> jwt_verdict) (scheme token rest : string) :
  " "%char ∉ list_ascii_of_string scheme ->
  " "%char ∉ list_ascii_of_string token ->
  token <> "" ->
  authenticateToken jwt_verify (Some (bearer token)) = after_verify (jwt_verify token)
  /\ authenticateToken jwt_verify (Some (scheme +:+ String " " token))
     = after_verify (jwt_verify token)
  /\ authenticateToken jwt_verify
       (Some (scheme +:+ String " " (token +:+ String " " rest)))
     = after_verify (jwt_verify token)
  /\ authenticateToken jwt_verify (Some scheme)
     = inl (mkResponse 401 (Failure "Access token required"))
  /\ authenticateToken jwt_verify None
     = inl (mkResponse 401 (Failure "Access token required")).
Proof.
  intros Hs Ht Hne.
  assert (Hgen : forall w, " "%char ∉ list_ascii_of_string w ->
            authenticateToken jwt_verify (Some (w +:+ String " " token))
            = after_verify (jwt_verify token)).
  { intros w Hw. unfold authenticateToken.
    rewrite decide_False by apply append_nonempty.
    rewrite (split_word _ _ _ Hw), (split_last _ _ Ht). simpl.
    by rewrite decide_False. }
  split; [|split; [|split; [|split]]].
  - apply (Hgen "Bearer"). simpl. rewrite !not_elem_of_cons.
    repeat split; try done. apply not_elem_of_nil.
  - by apply Hgen.
  - unfold authenticateToken. rewrite decide_False by apply append_nonempty.
    rewrite (split_word _ _ _ Hs), (split_word _ _ _ Ht). simpl.
    by rewrite decide_False.
  - unfold authenticateToken. destruct (decide (scheme = "")); [done|].
    by rewrite (split_last _ _ Hs).
  - done.
Qed.

Lemma authenticate_takes_second_word_demo :
  let verify := fun t : string => if decide (t = "a.b.c") then Payload 7
                                  else OtherVerifyError in
  authenticateToken verify (Some "Bearer a.b.c") = inr 7
  /\ authenticateToken verify (Some "Basic a.b.c") = inr 7
  /\ authenticateToken verify (Some "a.b.c")
     = inl (mkResponse 401 (Failure "Access token required")).
Proof.
  intros verify.
  destruct (authenticate_takes_second_word verify "Basic" "a.b.c" "x")
    as (H1 & H2 & _ & _ & _).
  - simpl. rewrite !not_elem_of_cons. repeat split; try done. apply not_elem_of_nil.
  - simpl. rewrite !not_elem_of_cons. repeat split; try done. apply not_elem_of_nil.
  - done.
  - split; [exact H1|]. split; [exact H2|reflexivity].
Defined.

(** ** Registration and login *)

Lemma register_credentials_cases bcrypt_hash e w p n d creds :
  let s := register_credentials bcrypt_hash e w p n d creds in
  (s.1.2 = creds /\ forall id e' n' pts, json s.2 <> Registered id e' n' pts)
  \/ exists e' name,
       users d !! users_id_seq d = None
       /\ s.2 = mkResponse 201 (Registered (users_id_seq d) e' name 1000)
       /\ e' = (if truthy e then e else None)
       /\ users s.1.1 = <[users_id_seq d := mkUser e' name 1000 0 0 None]> (users d)
       /\ s.1.2 = <[users_id_seq d :=
                      mkCredential None
                        (if truthy e && truthy p
                         then Some (bcrypt_hash (default "" p)) else None)]> creds
       /\ ~ (is_Some e' /\ map_Exists (fun _ u => email u = e') (users d)).
Proof.
  intros s. subst s. unfold register_credentials, register.
  destruct (negb (truthy e) && negb (truthy w)); [by left|].
  destruct (negb (truthy n)); [by left|].
  destruct (truthy e && truthy p && negb (passwordRegex_test (default "" p)));
    [by left|].
  destruct (decide _) as [Hc|Hc]; [by left|].
  right. eexists _, _. simpl.
  split; [|split; [reflexivity|split; [reflexivity|split; [reflexivity|split;
    [reflexivity|]]]]].
  - destruct (users d !! users_id_seq d) eqn:E; [|done].
    exfalso. apply Hc. left. by eexists.
  - intros Hdup. apply Hc. by right.
Qed.

(** X18. No way back in for an account registered without a password.
    When a registration that did not send both an e-mail and a password
    succeeds (a wallet-only registration, for one), the row it creates has
    neither a wallet address nor a password hash, and no login request,
    by identifier or by wallet, with any password, is answered with a
    token for that account. *)
Theorem login_locked_out_without_password
    (bcrypt_hash : string -> string) (bcrypt_compare : string -> string -> bool)
    (first_row : list (Z * user) -> option (Z * user))
    (e w p n : option string) (d : db) (creds : gmap Z credential)
    (id : Z) (e' : option string) (name : string) (pts : Z) :
  picks_a_row first_row ->
  truthy e && truthy p = false ->
  let s := register_credentials bcrypt_hash e w p n d creds in
  json s.2 = Registered id e' name pts ->
  credential_of s.1.2 id = mkCredential None None
  /\ forall identifier wallet password uname em balance,
       login bcrypt_compare first_row identifier wallet password s.1.1 s.1.2
       <> mkLogin 200 (LoggedIn id uname em balance).
Proof.
  intros [Hin _] Hnopw s Hreg.
  assert (Hc : credential_of s.1.2 id = mkCredential None None).
  { destruct (register_credentials_cases bcrypt_hash e w p n d creds)
      as [[_ Hno]|(e0 & n0 & _ & Hr & _ & _ & Hcreds & _)].
    - exfalso. by apply (Hno id e' name pts).
    - fold s in Hr, Hcreds. rewrite Hr in Hreg. simpl in Hreg. simplify_eq.
      unfold credential_of. rewrite Hcreds, lookup_insert_eq. simpl.
      by rewrite Hnopw. }
  split; [done|].
  intros identifier wallet password uname em balance. unfold login.
  destruct (negb (truthy identifier) && negb (truthy wallet)); [done|].
  destruct (truthy wallet && negb (truthy identifier)) eqn:Ew.
  - destruct (first_row _) as [row|] eqn:Erow; [|done].
    apply Hin in Erow. unfold by_wallet in Erow.
    apply list_elem_of_filter in Erow as [Hwal _].
    unfold logged_in. intros [= Hid _ _ _]. rewrite Hid, Hc in Hwal. done.
  - destruct (first_row _) as [row|] eqn:Erow; [|done].
    destruct (password_hash (credential_of s.1.2 row.1)) as [hash|] eqn:Eh; [|done].
    destruct (decide (hash = "")); [done|].
    destruct password as [pw|]; [|done].
    destruct (bcrypt_compare pw hash); [|done].
    unfold logged_in. intros [= Hid _ _ _]. rewrite Hid, Hc in Eh. done.
Qed.

(** A wallet-only registration into [demo_db], then a wallet login. *)
Lemma login_locked_out_without_password_demo :
  let s := register_credentials (fun pw => "hash:" +:+ pw)
             None (Some "0xabc") (Some "Passw0rd!") (Some "Carol")
             demo_db ∅ in
  s.2 = mkResponse 201 (Registered 2 None "Carol" 1000)
  /\ credential_of s.1.2 2 = mkCredential None None
  /\ login (fun pw hash => bool_decide (hash = "hash:" +:+ pw)) head
       None (Some "0xabc") None s.1.1 s.1.2
     = mkLogin 404 (LoginFailure "User not found")
  /\ login (fun pw hash => bool_decide (hash = "hash:" +:+ pw)) head
       (Some "Carol") None (Some "Passw0rd!") s.1.1 s.1.2
     = mkLogin 401 (LoginFailure "Invalid credentials").
Proof.
  intros s.
  assert (Hpick : picks_a_row head).
  { split.
    - intros [|x rows] row; [done|]. intros [= ->]. by left.
    - by intros [|x rows]. }
  destruct (login_locked_out_without_password (fun pw => "hash:" +:+ pw)
              (fun pw hash => bool_decide (hash = "hash:" +:+ pw)) head
              None (Some "0xabc") (Some "Passw0rd!") (Some "Carol") demo_db ∅
              2 None "Carol" 1000 Hpick eq_refl eq_refl) as [Hcred _].
  split; [reflexivity|]. split; [exact Hcred|]. split; reflexivity.
Defined.





(** X20. The SQLite login checks no password it is not sent.  For every
    state and every stored hash, a login that names the e-mail of an
    existing user and sends no password is answered 200 with a token for a
    user with that e-mail. *)
Theorem sqlite_login_without_password
    (bcrypt_compare : string -> string -> bool)
    (first_row : list (Z * user) -> option (Z * user))
    (e : string) (wallet : option string) (id : Z) (u : user)
    (d : db) (creds : gmap Z credential) :
  picks_a_row first_row ->
  users d !! id = Some u ->
  email u = Some e ->
  e <> "" ->
  exists id' u',
    users d !! id' = Some u' /\ email u' = Some e
    /\ sqlite_login bcrypt_compare first_row (Some e) wallet None d creds
       = mkLogin 200 (LoggedIn id' (username u') (email u') (points u')).
Proof.
  intros [Hin Hnone] Hu He Hne. unfold sqlite_login. simpl.
  rewrite bool_decide_eq_false_2 by done. simpl.
  destruct (first_row (by_email e d)) as [[id' u']|] eqn:Erow.
  - apply Hin in Erow. unfold by_email in Erow.
    apply list_elem_of_filter in Erow as [He' Hrow].
    apply elem_of_map_to_list in Hrow. exists id', u'.
    split; [done|]. split; [done|]. by rewrite andb_false_r.
  - apply Hnone in Erow. exfalso.
    assert (Hrow : (id, u) ∈ by_email e d).
    { unfold by_email. apply list_elem_of_filter. split; [done|].
      by apply elem_of_map_to_list. }
    rewrite Erow in Hrow. by apply elem_of_nil in Hrow.
Qed.

(** The seeded demo user, given a password hash, logs in without it. *)
Lemma sqlite_login_without_password_demo :
  let compare := fun pw hash => bool_decide (hash = "hash:" +:+ pw) in
  let creds : gmap Z credential :=
    {[ 1 := mkCredential None (Some "hash:Passw0rd!") ]} in
  exists id' u',
    users demo_db !! id' = Some u' /\ email u' = Some "demo@test.com"
    /\ sqlite_login compare head (Some "demo@test.com") None None demo_db creds
       = mkLogin 200 (LoggedIn id' (username u') (email u') (points u')).
Proof.
  intros compare creds.
  apply (sqlite_login_without_password compare head "demo@test.com" None 1
           demo_user demo_db creds).
  - split.
    + intros [|x rows] row; [done|]. intros [= ->]. by left.
    + by intros [|x rows].
  - reflexivity.
  - reflexivity.
  - done.
Defined.

(** X21. Register, then log in.  After a successful registration with an
    e-mail and a password, a login with that e-mail as identifier and that
    password is answered 200 with a token for the new account and its 1000
    points, provided no earlier user has the e-mail as username and the
    hashing library accepts the password against its own hash. *)
Theorem register_then_login
    (bcrypt_hash : string -> string) (bcrypt_compare : string -> string -> bool)
    (first_row : list (Z * user) -> option (Z * user))
    (e pw : string) (w n wallet : option string) (d : db)
    (creds : gmap Z credential) (id : Z) (name : string) :
  picks_a_row first_row ->
  bcrypt_compare pw (bcrypt_hash pw) = true ->
  bcrypt_hash pw <> "" ->
  e <> "" -> pw <> "" ->
  (forall i u, users d !! i = Some u -> username u <> e) ->
  let s := register_credentials bcrypt_hash (Some e) w (Some pw) n d creds in
  json s.2 = Registered id (Some e) name 1000 ->
  login bcrypt_compare first_row (Some e) wallet (Some pw) s.1.1 s.1.2
  = mkLogin 200 (LoggedIn id name (Some e) 1000).
Proof.
  intros [Hin Hnone] Hcmp Hhash He Hpw Hnames s Hreg.
  destruct (register_credentials_cases bcrypt_hash (Some e) w (Some pw) n d creds)
    as [[_ Hno]|(e0 & n0 & Hfresh & Hr & He0 & Husers & Hcreds & Hdup)].
  { exfalso. by apply (Hno id (Some e) name 1000). }
  fold s in Hr, Husers, Hcreds. rewrite Hr in Hreg. simpl in Hreg.
  injection Hreg as <- -> ->.
  simpl in Hcreds. rewrite !bool_decide_eq_false_2 in Hcreds by done.
  simpl in Hcreds.
  assert (Hrows : forall row, row ∈ by_identifier e s.1.1 ->
            row = (users_id_seq d, mkUser (Some e) name 1000 0 0 None)).
  { intros [i u] Hrow. unfold by_identifier in Hrow.
    apply list_elem_of_filter in Hrow as [Hmatch Hrow].
    apply elem_of_map_to_list in Hrow. rewrite Husers in Hrow.
    rewrite lookup_insert in Hrow.
    destruct (decide (users_id_seq d = i)) as [<-|Hne]; [by simplify_eq|].
    exfalso. simpl in Hmatch. destruct Hmatch as [Hn|Hm].
    - by apply (Hnames i u).
    - apply Hdup. split; [by eexists|]. by exists i, u. }
  unfold login. simpl. rewrite bool_decide_eq_false_2 by done. simpl.
  rewrite andb_false_r.
  destruct (first_row (by_identifier e s.1.1)) as [row|] eqn:Erow.
  - apply Hin, Hrows in Erow. subst row. unfold credential_of.
    rewrite Hcreds, lookup_insert_eq. simpl.
    rewrite decide_False by done. by rewrite Hcmp.
  - apply Hnone in Erow. exfalso.
    assert (Hrow : (users_id_seq d, mkUser (Some e) name 1000 0 0 None)
                   ∈ by_identifier e s.1.1).
    { unfold by_identifier. apply list_elem_of_filter. split; [by right|].
      apply elem_of_map_to_list. rewrite Husers. apply lookup_insert_eq. }
    rewrite Erow in Hrow. by apply elem_of_nil in Hrow.
Qed.

Lemma register_then_login_demo :
  let hash := fun pw : string => "hash:" +:+ pw in
  let compare := fun (pw hash : string) => bool_decide (hash = "hash:" +:+ pw) in
  let s := register_credentials hash (Some "dan@test.com") None (Some "Passw0rd!")
             (Some "Dan") demo_db ∅ in
  s.2 = mkResponse 201 (Registered 2 (Some "dan@test.com") "Dan" 1000)
  /\ login compare head (Some "dan@test.com") None (Some "Passw0rd!") s.1.1 s.1.2
     = mkLogin 200 (LoggedIn 2 "Dan" (Some "dan@test.com") 1000)
  /\ login compare head (Some "dan@test.com") None (Some "passw0rd!") s.1.1 s.1.2
     = mkLogin 401 (LoginFailure "Invalid password").
Proof.
  intros hash compare s. split; [reflexivity|]. split; [|reflexivity].
  apply (register_then_login hash compare head "dan@test.com" "Passw0rd!"
           None (Some "Dan") None demo_db ∅ 2 "Dan").
  - split.
    + intros [|x rows] row; [done|]. intros [= ->]. by left.
    + by intros [|x rows].
  - reflexivity.
  - done.
  - done.
  - done.
  - intros i u Hu. unfold demo_db in Hu; simpl in Hu.
    apply lookup_singleton_Some in Hu as [_ <-]. done.
  - reflexivity.
Defined.

(** ** The migration and the tournament list *)

Lemma migrate_done all_typed t t' :
  migrate all_typed (Some t) = Some t' ->
  ("tournament_type" ∉ columns t') /\ "tournament_type_id" ∈ not_null t'.
Proof.
  unfold migrate. case_decide; [|done]. destruct all_typed; [|done].
  intros [= <-]. simpl. split.
  - rewrite elem_of_difference, elem_of_singleton. tauto.
  - apply elem_of_union. right. by apply elem_of_singleton.
Qed.

Lemma names_only_columns_missing named t c :
  c ∈ named -> c ∉ columns t -> names_only_columns named (Some t) = false.
Proof.
  intros Hin Hno. destruct (names_only_columns named (Some t)) eqn:E; [|done].
  exfalso. simpl in E. rewrite forallb_forall in E.
  specialize (E c). rewrite <- list_elem_of_In in E.
  specialize (E Hin). apply bool_decide_eq_true in E. by apply Hno.
Qed.

(** X22. The start-up migration runs once.  When its steps 4 to 7 have
    gone through, the column [tournament_type] is gone and
    [tournament_type_id] is NOT NULL, and from then on: a later start-up
    stops at step 5, whose update names the dropped column; the query of
    GET /api/tournaments, which selects that column, fails, so that the
    endpoint answers 500 for every request; and the insert of POST
    /api/admin/events, which does not name [tournament_type_id], is
    refused. *)
Theorem migration_runs_once (all_typed : bool) (t t' : table) :
  migrate all_typed (Some t) = Some t' ->
  (forall again, migrate again (Some t') = None)
  /\ (forall parseInt q_category q_page q_pageSize db_now catalogue d,
        get_tournaments parseInt (Some t') q_category q_page q_pageSize db_now
          catalogue d = ListingFailed)
  /\ insert_accepted admin_insert_columns (Some t') = false.
Proof.
  intros Hm. destruct (migrate_done _ _ _ Hm) as [Hgone Hnn].
  split; [|split].
  - intros again. unfold migrate. rewrite decide_False; [done|].
    simpl. rewrite elem_of_union, elem_of_singleton.
    intros [Hin|Heq]; [done|discriminate Heq].
  - intros. unfold get_tournaments.
    rewrite (names_only_columns_missing _ _ "tournament_type"); [done| |done].
    unfold listing_columns. rewrite !elem_of_cons. tauto.
  - unfold insert_accepted. apply andb_false_iff. right.
    apply bool_decide_eq_false_2. intros Hall. specialize (Hall _ Hnn).
    unfold admin_insert_columns in Hall.
    repeat (apply elem_of_cons in Hall as [Heq|Hall]; [discriminate Heq|]).
    by apply elem_of_nil in Hall.
Qed.

Lemma migration_runs_once_demo :
  is_Some (migrate true (Some legacy_table))
  /\ (forall t', migrate true (Some legacy_table) = Some t' ->
      migrate true (Some t') = None
      /\ get_tournaments (fun _ => None) (Some t') None None None 0
           [(1, "crypto")] demo_db = ListingFailed)
  /\ exists rows,
       get_tournaments (fun _ => None) (Some legacy_table) None None None 0
         [(1, "crypto")] demo_db = Listing rows 1 1 20.
Proof.
  split; [by eexists|]. split; [|by eexists].
  intros t' Hm.
  destruct (migration_runs_once true legacy_table t' Hm) as (Hagain & Hlist & _).
  split; [apply Hagain|apply Hlist].
Defined.

Lemma or_else_nonzero n fallback : fallback <> 0 -> or_else n fallback <> 0.
Proof. intros Hf. destruct n as [[| |]|]; simpl; done. Qed.

(** X23. The page window.  Whatever the query string, a list that is sent
    is page [page >= 1] with [1 <= pageSize <= 100] and holds at most
    [pageSize] rows, never more than the total it reports; a page size
    above 100 is cut to 100, a page or page size of 0 or that is not a
    number falls back to 1 and 20; and a negative page or page size makes
    the endpoint answer 500. *)
Theorem listing_window
    (parseInt : option string -> option Z) (tournaments_table : option table)
    (q_category q_page q_pageSize : option string) (db_now : Z)
    (catalogue : list (Z * string)) (d : db) :
  let r := get_tournaments parseInt tournaments_table q_category q_page
             q_pageSize db_now catalogue d in
  (forall rows total page pageSize, r = Listing rows total page pageSize ->
     page = or_else (parseInt q_page) 1
     /\ pageSize = Z.min (or_else (parseInt q_pageSize) 20) 100
     /\ 1 <= page /\ 1 <= pageSize <= 100
     /\ (Z.of_nat (length rows) <= pageSize) /\ (length rows <= total)%nat)
  /\ (forall n, parseInt q_page = Some n -> n < 0 -> r = ListingFailed)
  /\ (forall n, parseInt q_pageSize = Some n -> n < 0 -> r = ListingFailed).
Proof.
  intros r. subst r. unfold get_tournaments, DEFAULT_PAGE_SIZE, MAX_PAGE_SIZE.
  set (page := or_else (parseInt q_page) 1).
  set (size := or_else (parseInt q_pageSize) 20).
  assert (Hp0 : page <> 0) by (by apply or_else_nonzero).
  assert (Hs0 : size <> 0) by (by apply or_else_nonzero).
  destruct (negb (names_only_columns listing_columns tournaments_table));
    [by repeat split|].
  destruct ((Z.min size 100 <? 0) || ((page - 1) * Z.min size 100 <? 0)) eqn:E.
  { by repeat split. }
  apply orb_false_iff in E as [E1 E2].
  apply Z.ltb_ge in E1. apply Z.ltb_ge in E2.
  assert (Hsize : 1 <= Z.min size 100 <= 100) by lia.
  assert (Hpage : 1 <= page) by nia.
  split; [|split].
  - intros rows total p s [= <- <- <- <-].
    split; [done|]. split; [done|]. split; [done|]. split; [done|].
    rewrite length_take, length_drop. split; lia.
  - intros n Hn Hneg. exfalso. subst page. rewrite Hn in Hpage.
    destruct n; simpl in Hpage; lia.
  - intros n Hn Hneg. exfalso. subst size. rewrite Hn in Hsize.
    destruct n; simpl in Hsize; lia.
Qed.

Example listing_negative_page :
  let parseInt := fun q : option string =>
                    match q with Some "-1" => Some (-1) | Some "250" => Some 250
                            | _ => None end in
  get_tournaments parseInt (Some legacy_table) None (Some "-1") None 0
    [(1, "crypto")] demo_db = ListingFailed
  /\ exists rows,
       get_tournaments parseInt (Some legacy_table) None None (Some "250") 0
         [(1, "crypto")] demo_db = Listing rows 1 1 100.
Proof. split; [reflexivity|by eexists]. Qed.

(** X24. What the list shows.  From a valid registry, every row of a list
    that is sent is a tournament of the table that is pending or active,
    never one that is closed or resolved; its [participantCount] is its
    number of participant rows and equals its [currentParticipants]; and
    it is flagged [expired] exactly when its end time lies before the
    store's clock, which an active tournament can be until the next
    sweep. *)
Theorem listing_rows_open_and_counted
    (parseInt : option string -> option Z) (tournaments_table : option table)
    (q_category q_page q_pageSize : option string) (db_now : Z)
    (catalogue : list (Z * string)) (d : db)
    (rows : list listed) (total : nat) (page pageSize : Z) :
  registry_ok d ->
  get_tournaments parseInt tournaments_table q_category q_page q_pageSize db_now
    catalogue d = Listing rows total page pageSize ->
  forall row, row ∈ rows ->
    tournaments d !! l_id row = Some (l_tournament row)
    /\ (status (l_tournament row) = pending \/ status (l_tournament row) = active)
    /\ l_participantCount row = Z.of_nat (length (entries (l_id row) d))
    /\ l_participantCount row = current_participants (l_tournament row)
    /\ (l_expired row = true <-> end_time (l_tournament row) < db_now).
Proof.
  intros Hd Hr row Hrow. unfold get_tournaments in Hr.
  destruct (negb (names_only_columns listing_columns tournaments_table));
    [done|].
  destruct (_ || _); [done|]. injection Hr as <- _ _ _.
  apply subseteq_take, subseteq_drop in Hrow.
  apply list_elem_of_omap in Hrow as ([id cat] & _ & Hf). simpl in Hf.
  destruct (tournaments d !! id) as [t|] eqn:Et; [|done].
  case_bool_decide as Hopen; [|done]. injection Hf as <-. simpl.
  destruct (Hd _ _ Et) as (Hc & _).
  repeat split; try tauto; try done.
  - by apply bool_decide_eq_true.
  - by apply bool_decide_eq_true.
Qed.

Lemma listing_rows_open_and_counted_demo :
  let d := (enter 1 1 "Above $45,000" demo_db).1 in
  let row := mkListed 1 "crypto"
               (set_prize_pool 100 (set_current_participants 1 bitcoin)) true 1 in
  get_tournaments (fun _ => None) (Some legacy_table) None None None 8000000
    [(1, "crypto")] d = Listing [row] 1 1 20
  /\ tournaments d !! l_id row = Some (l_tournament row)
  /\ (status (l_tournament row) = pending \/ status (l_tournament row) = active)
  /\ l_participantCount row = Z.of_nat (length (entries (l_id row) d))
  /\ l_participantCount row = current_participants (l_tournament row)
  /\ (l_expired row = true <-> end_time (l_tournament row) < 8000000).
Proof.
  intros d row. split; [reflexivity|].
  apply (listing_rows_open_and_counted (fun _ => None) (Some legacy_table)
           None None None 8000000 [(1, "crypto")] d [row] 1 1 20).
  - change (registry_ok (step demo_db (Enter 1 1 "Above $45,000"))).
    apply registry_ok_step, demo_db_registry_ok.
  - reflexivity.
  - by left.
Defined.

(** ** Events *)

(** X25. An update cannot clear a field.  PUT /api/events/:id with a body
    and an id the store accepts, on an existing event, answers 200 and
    stores, for each of the six columns of the body, its value if the body
    gives one and the old value otherwise; [created_at] is kept and
    [updated_at] becomes the store's clock.  So a description or a capacity
    that is set stays set whatever the body says, and a body that gives
    nothing changes only [updated_at].  On an unknown id it answers 404 and
    changes nothing; when the store refuses the body or the id it answers
    500 and changes nothing. *)
Theorem events_update_keeps_what_it_is_not_given
    (id : Z) (b : Events.fields) (db_now : Z) (s : Events.store) :
  (Events.binds b && is_int4 id = false ->
   Events.update id b db_now s
   = (s, Events.mkResponse 500 (Events.Failure "Failed to update event")))
  /\ (Events.binds b && is_int4 id = true ->
      (Events.events s !! id = None ->
       Events.update id b db_now s
       = (s, Events.mkResponse 404 (Events.Failure "Event not found")))
      /\ (forall e, Events.events s !! id = Some e ->
          exists e',
            Events.update id b db_now s
            = (Events.mkStore (<[id := e']> (Events.events s))
                              (Events.events_id_seq s),
               Events.mkResponse 200 (Events.Row id e'))
            /\ Events.title e' = default (Events.title e) (Events.f_title b)
            /\ Events.description e'
               = match Events.f_description b with
                 | Some text => Some text
                 | None => Events.description e
                 end
            /\ Events.location e'
               = default (Events.location e) (Events.f_location b)
            /\ Events.start_time e'
               = default (Events.start_time e) (Events.f_start_time b)
            /\ Events.end_time e'
               = default (Events.end_time e) (Events.f_end_time b)
            /\ Events.capacity e'
               = match Events.f_capacity b with
                 | Some places => Some places
                 | None => Events.capacity e
                 end
            /\ Events.created_at e' = Events.created_at e
            /\ Events.updated_at e' = db_now
            /\ (is_Some (Events.description e) -> is_Some (Events.description e'))
            /\ (is_Some (Events.capacity e) -> is_Some (Events.capacity e'))
            /\ (b = Events.mkFields None None None None None None ->
                e' = Events.mkEvent (Events.title e) (Events.description e)
                       (Events.location e) (Events.start_time e)
                       (Events.end_time e) (Events.capacity e)
                       (Events.created_at e) db_now))).
Proof.
  split.
  - intros Hno. unfold Events.update. by rewrite Hno.
  - intros Hok. split.
    + intros Hn. unfold Events.update. by rewrite Hok, Hn.
    + intros e He. unfold Events.update. rewrite Hok, He. eexists.
      split; [reflexivity|]. simpl. repeat split; try done.
      * intros Hd. by destruct (Events.f_description b).
      * intros Hc. by destruct (Events.f_capacity b).
      * by intros ->.
Qed.

(** An update by an id that is no INTEGER, and one that gives a new
    capacity only. *)
Example events_update_examples :
  let e := Events.mkEvent "Meetup" (Some "Monthly") "Madrid" 10 20 (Some 30) 5 5 in
  let s := Events.mkStore {[ 1 := e ]} 2 in
  Events.update 2147483648 (Events.mkFields None None None None None None) 7 s
  = (s, Events.mkResponse 500 (Events.Failure "Failed to update event"))
  /\ (Events.update 1 (Events.mkFields None None None None None (Some 40)) 7 s).2
     = Events.mkResponse 200
         (Events.Row 1 (Events.mkEvent "Meetup" (Some "Monthly") "Madrid" 10 20
                          (Some 40) 5 7)).
Proof. by split. Qed.

(** X26. Create, delete, delete again.  POST /api/events with a body the
    store accepts that has a title, a location and both times answers 201
    and stores the row under a new key with the capacity as sent (NULL when
    absent, not the column default); a DELETE of that key then restores the
    table and answers 200, while a second DELETE answers 404.  A POST that
    lacks one of the four required fields answers 500 and stores nothing,
    though it uses up a key; a POST whose body the store refuses (a
    capacity that is no INTEGER, a text with NUL) answers 500, stores
    nothing and uses up no key. *)
Theorem events_create_then_delete
    (b : Events.fields) (db_now : Z) (s : Events.store) :
  Events.events s !! Events.events_id_seq s = None ->
  is_int4 (Events.events_id_seq s) = true ->
  let id := Events.events_id_seq s in
  let created := Events.create b db_now s in
  (Events.binds b = false ->
   created = (s, Events.mkResponse 500 (Events.Failure "Failed to create event")))
  /\ (Events.binds b = true ->
      (forall t l st en,
         Events.f_title b = Some t -> Events.f_location b = Some l ->
         Events.f_start_time b = Some st -> Events.f_end_time b = Some en ->
         let e := Events.mkEvent t (Events.f_description b) l st en
                    (Events.f_capacity b) db_now db_now in
         created.2 = Events.mkResponse 201 (Events.Row id e)
         /\ Events.events created.1 !! id = Some e
         /\ Events.remove id created.1
            = (Events.mkStore (Events.events s) (id + 1),
               Events.mkResponse 200 Events.Deleted)
         /\ (Events.remove id (Events.remove id created.1).1).2
            = Events.mkResponse 404 (Events.Failure "Event not found"))
      /\ (Events.f_title b = None \/ Events.f_location b = None
          \/ Events.f_start_time b = None \/ Events.f_end_time b = None ->
          created
          = (Events.mkStore (Events.events s) (id + 1),
             Events.mkResponse 500 (Events.Failure "Failed to create event")))).
Proof.
  intros Hfresh Hkey id created. subst id created. split.
  - intros Hno. unfold Events.create. by rewrite Hno.
  - intros Hok. split.
    + intros t l st en Ht Hl Hst Hen e. unfold Events.create.
      rewrite Hok, Ht, Hl, Hst, Hen, Hfresh. cbn [negb fst snd].
      split; [done|]. split; [apply lookup_insert_eq|].
      unfold Events.remove. rewrite Hkey.
      cbn [negb Events.events Events.events_id_seq].
      rewrite lookup_insert_eq. cbn [fst snd Events.events Events.events_id_seq].
      rewrite delete_insert_eq, lookup_delete_eq.
      split; [|done]. f_equal. f_equal. by apply delete_id.
    + intros Hmiss. unfold Events.create. rewrite Hok. cbn [negb].
      destruct (Events.f_title b), (Events.f_location b),
        (Events.f_start_time b), (Events.f_end_time b); try done.
      exfalso. destruct Hmiss as [?|[?|[?|?]]]; done.
Qed.

Lemma events_create_then_delete_demo :
  let s := Events.mkStore ∅ 1 in
  let b := Events.mkFields (Some "Meetup") None (Some "Madrid") (Some 10) (Some 20)
             None in
  (Events.create b 5 s).2
  = Events.mkResponse 201
      (Events.Row 1 (Events.mkEvent "Meetup" None "Madrid" 10 20 None 5 5))
  /\ Events.remove 1 (Events.create b 5 s).1
     = (Events.mkStore ∅ 2, Events.mkResponse 200 Events.Deleted)
  /\ Events.create
       (Events.mkFields (Some "Meetup") None (Some "Madrid") (Some 10) (Some 20)
          (Some 2147483648)) 5 s
     = (s, Events.mkResponse 500 (Events.Failure "Failed to create event")).
Proof.
  intros s b.
  destruct (events_create_then_delete b 5 s eq_refl eq_refl) as [_ Hok].
  destruct (Hok eq_refl) as [Hmade _].
  destruct (Hmade "Meetup" "Madrid" 10 20 eq_refl eq_refl eq_refl eq_refl)
    as (Hresp & _ & Hdel & _).
  split; [exact Hresp|]. split; [exact Hdel|].
  exact (proj1 (events_create_then_delete
                  (Events.mkFields (Some "Meetup") None (Some "Madrid") (Some 10)
                     (Some 20) (Some 2147483648)) 5 s eq_refl eq_refl) eq_refl).
Defined.

(** ** CORS *)

Lemma append_assoc (a b c : string) : a +:+ (b +:+ c) = (a +:+ b) +:+ c.
Proof.
  induction a as [|x a IHa]; [done|].
  change (String x (a +:+ (b +:+ c)) = String x ((a +:+ b) +:+ c)).
  by rewrite IHa.
Qed.

Lemma allowedOrigins_padded (os : list string) (pad : string) :
  Forall tidy os -> os <> [] ->
  pad = "" \/ pad = " " ->
  filter (fun o => o <> "") (trim <$> split "," (pad +:+ String.concat ", " os)) = os.
Proof.
  intros Hos. revert pad. induction Hos as [|o os (Hne & Hcomma & Htrim & _) Hos IH];
    intros pad Hsome Hpad; [by destruct Hsome|].
  assert (Hpo : trim (pad +:+ o) = o) by (by destruct Hpad as [-> | ->]).
  assert (Hpc : ","%char ∉ list_ascii_of_string (pad +:+ o)).
  { destruct Hpad as [-> | ->]; simpl; [done|].
    apply not_elem_of_cons. by split. }
  destruct os as [|o2 os].
  - simpl. rewrite (split_last _ _ Hpc). simpl. rewrite Hpo.
    rewrite filter_cons, decide_True by done. done.
  - change (String.concat ", " (o :: o2 :: os))
      with (o +:+ String "," (" " +:+ String.concat ", " (o2 :: os))).
    rewrite append_assoc, (split_word _ _ _ Hpc). rewrite fmap_cons, Hpo.
    rewrite filter_cons, decide_True by done. f_equal.
    apply IH; [done|by right].
Qed.

(** X27. The origin list as written is the origin list that is allowed.
    For origins written without commas or surrounding white space and
    joined by a comma and a space in CORS_ORIGIN, the server allows exactly
    those origins, compared character by character; a request without an
    Origin header is allowed whatever the list; and with CORS_ORIGIN unset
    or empty no origin at all is allowed. *)
Theorem cors_allows_the_listed_origins (os : list string) (origin : string) :
  Forall tidy os ->
  origin <> "" ->
  let CORS_ORIGIN := Some (String.concat ", " os) in
  allowedOrigins CORS_ORIGIN = os
  /\ (cors_origin CORS_ORIGIN (Some origin) = true <-> origin ∈ os)
  /\ cors_origin CORS_ORIGIN None = true
  /\ cors_origin None (Some origin) = false
  /\ cors_origin (Some "") (Some origin) = false.
Proof.
  intros Hos Hne CORS_ORIGIN.
  assert (Hlist : allowedOrigins CORS_ORIGIN = os).
  { subst CORS_ORIGIN. destruct os as [|o os]; [done|].
    unfold allowedOrigins.
    assert (Ht : truthy (Some (String.concat ", " (o :: os))) = true).
    { simpl. apply negb_true_iff, bool_decide_eq_false_2.
      apply Forall_cons_1 in Hos as [(Hno & _) _].
      destruct os; simpl; [done|]. by destruct o. }
    rewrite Ht. simpl default.
    by apply (allowedOrigins_padded (o :: os) ""); [|done|left]. }
  split; [done|]. split; [|split; [done|split]].
  - unfold cors_origin. simpl. rewrite bool_decide_eq_false_2 by done. simpl.
    rewrite Hlist. apply bool_decide_eq_true.
  - unfold cors_origin. simpl. by rewrite bool_decide_eq_false_2 by done.
  - unfold cors_origin. simpl. by rewrite bool_decide_eq_false_2 by done.
Qed.

Lemma cors_allows_the_listed_origins_demo :
  allowedOrigins (Some "https://a.example, https://b.example")
  = ["https://a.example"; "https://b.example"]
  /\ cors_origin (Some "https://a.example, https://b.example")
       (Some "https://b.example/") = false.
Proof.
  assert (Htidy : Forall tidy ["https://a.example"; "https://b.example"]).
  { assert (Hdec : forall o, bool_decide (tidy o) = true -> tidy o)
      by (intros o; apply bool_decide_eq_true).
    repeat constructor; apply Hdec; by vm_compute. }
  destruct (cors_allows_the_listed_origins
              ["https://a.example"; "https://b.example"] "https://b.example/"
              Htidy ltac:(done)) as (Hlist & _).
  split; [exact Hlist|reflexivity].
Defined.

(** ** The seeded test users *)

Lemma insert_test_user_cases row s s' :
  insert_test_user row s = Some s' ->
  users_id_seq s'.1 = users_id_seq s.1 + 1
  /\ tournaments s'.1 = tournaments s.1 /\ participants s'.1 = participants s.1
  /\ map_Exists (fun _ u => email u = Some row.1.1) (users s'.1)
  /\ ((users s'.1 = users s.1 /\ s'.2 = s.2)
      \/ (users s.1 !! users_id_seq s.1 = None
          /\ users s'.1 = <[users_id_seq s.1 :=
                              mkUser (Some row.1.1) row.1.2 row.2 0 0 None]>
                            (users s.1)
          /\ s'.2 = <[users_id_seq s.1 := mkCredential None None]> s.2)).
Proof.
  unfold insert_test_user.
  destruct (decide (map_Exists _ _)) as [Hex|Hno].
  - intros [= <-]. simpl. repeat split; try done. by left.
  - destruct (decide (is_Some _)) as [Hk|Hk]; [done|].
    intros [= <-]. simpl. repeat split; try done.
    + eexists _, _. split; [apply lookup_insert_eq|done].
    + right. split; [|done]. by apply eq_None_not_Some.
Qed.

Lemma createTestUsers_unfold s :
  createTestUsers s
  = (insert_test_user ("demo@test.com", "DemoUser", 2500) s
     ≫= insert_test_user ("alice@test.com", "Alice", 1800))
    ≫= insert_test_user ("bob@test.com", "Bob", 3200).
Proof. reflexivity. Qed.

Lemma email_kept row s s' (e : string) :
  insert_test_user row s = Some s' ->
  map_Exists (fun _ u => email u = Some e) (users s.1) ->
  map_Exists (fun _ u => email u = Some e) (users s'.1).
Proof.
  intros Hs (i & u & Hi & He).
  destruct (insert_test_user_cases _ _ _ Hs)
    as (_ & _ & _ & _ & [[-> _]|(Hfresh & -> & _)]).
  - by exists i, u.
  - exists i, u. split; [|done]. rewrite lookup_insert_ne; [done|].
    intros Heq. rewrite Heq in Hfresh. congruence.
Qed.

Lemma insert_test_user_again row s :
  map_Exists (fun _ u => email u = Some row.1.1) (users s.1) ->
  insert_test_user row s
  = Some (mkDb (users s.1) (users_id_seq s.1 + 1) (tournaments s.1)
               (participants s.1), s.2).
Proof. intros Hex. unfold insert_test_user. by rewrite decide_True. Qed.

(** X28. Seeding twice seeds once.  When the seeding of the test users has
    gone through, the three e-mails are in the table, and a second seeding
    inserts nothing: it leaves every table and credential as it was and only
    draws three more keys from the sequence. *)
Theorem createTestUsers_twice (s s1 : db * gmap Z credential) :
  createTestUsers s = Some s1 ->
  (forall row, row ∈ testUsers ->
     map_Exists (fun _ u => email u = Some row.1.1) (users s1.1))
  /\ createTestUsers s1
     = Some (mkDb (users s1.1) (users_id_seq s1.1 + 3) (tournaments s1.1)
                  (participants s1.1), s1.2).
Proof.
  rewrite createTestUsers_unfold. intros Hs.
  destruct (insert_test_user _ s) as [sa|] eqn:Ea; [|done]. simpl in Hs.
  destruct (insert_test_user _ sa) as [sb|] eqn:Eb; [|done]. simpl in Hs.
  destruct (insert_test_user_cases _ _ _ Ea) as (_ & _ & _ & Hdemo & _).
  destruct (insert_test_user_cases _ _ _ Eb) as (_ & _ & _ & Halice & _).
  destruct (insert_test_user_cases _ _ _ Hs) as (_ & _ & _ & Hbob & _).
  pose proof (email_kept _ _ _ _ Hs (email_kept _ _ _ _ Eb Hdemo)) as Hdemo1.
  pose proof (email_kept _ _ _ _ Hs Halice) as Halice1.
  split.
  - intros row Hrow. unfold testUsers in Hrow.
    repeat (apply elem_of_cons in Hrow as [->|Hrow]; [done|]).
    by apply elem_of_nil in Hrow.
  - rewrite createTestUsers_unfold.
    rewrite (insert_test_user_again _ s1 Hdemo1). simpl.
    rewrite insert_test_user_again by done. simpl.
    rewrite insert_test_user_again by done. simpl.
    do 2 f_equal. f_equal. lia.
Qed.

Lemma createTestUsers_twice_demo :
  let s0 : db * gmap Z credential := (mkDb ∅ 1 ∅ [], ∅) in
  exists s1,
    createTestUsers s0 = Some s1
    /\ dom (users s1.1) = {[ 1; 2; 3 ]}
    /\ createTestUsers s1
       = Some (mkDb (users s1.1) 7 (tournaments s1.1) (participants s1.1), s1.2).
Proof.
  intros s0. eexists. split; [reflexivity|]. split; [by vm_compute|].
  exact (proj2 (createTestUsers_twice s0 _ eq_refl)).
Defined.

Lemma login_needs_credentials bcrypt_compare first_row d creds id :
  picks_a_row first_row ->
  credential_of creds id = mkCredential None None ->
  forall identifier wallet password uname em balance,
    login bcrypt_compare first_row identifier wallet password d creds
    <> mkLogin 200 (LoggedIn id uname em balance).
Proof.
  intros [Hin _] Hc identifier wallet password uname em balance. unfold login.
  destruct (negb (truthy identifier) && negb (truthy wallet)); [done|].
  destruct (truthy wallet && negb (truthy identifier)) eqn:Ew.
  - destruct (first_row _) as [row|] eqn:Erow; [|done].
    apply Hin in Erow. unfold by_wallet in Erow.
    apply list_elem_of_filter in Erow as [Hwal _].
    unfold logged_in. intros [= Hid _ _ _]. rewrite Hid, Hc in Hwal. done.
  - destruct (first_row _) as [row|] eqn:Erow; [|done].
    destruct (password_hash (credential_of creds row.1)) as [hash|] eqn:Eh; [|done].
    destruct (decide (hash = "")); [done|].
    destruct password as [pw|]; [|done].
    destruct (bcrypt_compare pw hash); [|done].
    unfold logged_in. intros [= Hid _ _ _]. rewrite Hid, Hc in Eh. done.
Qed.

Lemma seeded_credentials row s s' id :
  insert_test_user row s = Some s' ->
  users s.1 !! id = None \/ credential_of s.2 id = mkCredential None None ->
  users s'.1 !! id = None \/ credential_of s'.2 id = mkCredential None None.
Proof.
  intros Hs Hold.
  destruct (insert_test_user_cases _ _ _ Hs)
    as (_ & _ & _ & _ & [[Hu Hc]|(Hfresh & Hu & Hc)]).
  - by rewrite Hu, Hc.
  - unfold credential_of in *. rewrite Hu, Hc.
    destruct (decide (users_id_seq s.1 = id)) as [->|Hne].
    + right. by rewrite lookup_insert_eq.
    + by rewrite !lookup_insert_ne by done.
Qed.

(** X29. The seeded test users cannot log in.  An account that the seeding
    of the test users has created has neither a password hash nor a wallet
    address, so no login request, whatever identifier, wallet address or
    password it sends and whatever the password check answers, is answered
    with that account. *)
Theorem seeded_users_cannot_log_in
    (bcrypt_compare : string -> string -> bool)
    (first_row : list (Z * user) -> option (Z * user))
    (s s1 : db * gmap Z credential) (id : Z) :
  picks_a_row first_row ->
  createTestUsers s = Some s1 ->
  users s.1 !! id = None ->
  is_Some (users s1.1 !! id) ->
  forall identifier wallet password uname em balance,
    login bcrypt_compare first_row identifier wallet password s1.1 s1.2
    <> mkLogin 200 (LoggedIn id uname em balance).
Proof.
  intros Hpick Hs Hfresh [row Hrow].
  apply login_needs_credentials; [done|].
  rewrite createTestUsers_unfold in Hs.
  destruct (insert_test_user _ s) as [sa|] eqn:Ea; [|done]. simpl in Hs.
  destruct (insert_test_user _ sa) as [sb|] eqn:Eb; [|done]. simpl in Hs.
  pose proof (seeded_credentials _ _ _ id Ea (or_introl Hfresh)) as Ha.
  pose proof (seeded_credentials _ _ _ id Eb Ha) as Hb.
  destruct (seeded_credentials _ _ _ id Hs Hb) as [Hno|Hc]; [|done].
  congruence.
Qed.

Lemma seeded_users_cannot_log_in_demo :
  let s0 : db * gmap Z credential := (mkDb ∅ 1 ∅ [], ∅) in
  let first_row := head (A := Z * user) in
  exists s1,
    createTestUsers s0 = Some s1
    /\ email <$> users s1.1 !! 1 = Some (Some "demo@test.com")
    /\ forall password,
         login (fun _ _ => true) first_row (Some "demo@test.com") None
               password s1.1 s1.2
         <> mkLogin 200 (LoggedIn 1 "DemoUser" (Some "demo@test.com") 2500).
Proof.
  intros s0 first_row. eexists. split; [reflexivity|]. split; [reflexivity|].
  intros password.
  apply (seeded_users_cannot_log_in (fun _ _ => true) first_row s0 _ 1).
  - split.
    + intros l row Hrow. by apply head_Some_elem_of.
    + by intros [|x l] Hl.
  - reflexivity.
  - reflexivity.
  - by eexists.
Defined.
